(** * Energy-Aware Epidemic Routing: log extraction and aggregation

    A shallow embedding of [examples/generate_graphs.py]: the two log
    extraction passes ([parse_energy_log], [parse_pdr_log]), the derived
    series computed inside the plotting functions ([plot_average_energy],
    [plot_network_lifetime]) and the top-level [main].

    - Python [float] is IEEE-754 binary64: the primitive [float] of Rocq.
    - Python [int] is unbounded: [N] for node identifiers, [Z] elsewhere.
    - [str] is a list of 8-bit characters ([list ascii], read as Latin-1,
      where the only decimal digits are ['0'..'9']).
    - the [defaultdict(list)] is an association list in insertion order.
    - [re.search] is a backtracking matcher over the regular expressions
      the script uses, with numbered capture groups.
    - exceptions are a [result] type; [print] and the data-carrying
      [matplotlib] calls are events of a trace. *)

From Stdlib Require Import Ascii String List ZArith NArith Lia Bool Arith.
From Stdlib Require Import Floats DecimalString.
From Stdlib Require Import Sorting.Sorted Sorting.Permutation.
Import ListNotations.

Set Warnings "-inexact-float".

(** ** Exceptions *)

Inductive exn : Set :=
| ValueError
| ZeroDivisionError
| FileNotFoundError
| IsADirectoryError
| PermissionError.

Inductive result (A : Type) : Type :=
| Ok (a : A)
| Raise (e : exn).

Arguments Ok {A} a.
Arguments Raise {A} e.

Definition rbind {A B : Type} (m : result A) (f : A -> result B) : result B :=
  match m with
  | Ok a => f a
  | Raise e => Raise e
  end.

Declare Scope result_scope.
Delimit Scope result_scope with result.
Notation "x <- m ;; k" := (rbind m (fun x => k))
  (at level 61, m at next level, right associativity) : result_scope.
Notation "' p <- m ;; k" := (rbind m (fun x => let p := x in k))
  (at level 61, p pattern, m at next level, right associativity) : result_scope.

(** ** Text *)

Definition text := list ascii.

Definition str (s : string) : text := list_ascii_of_string s.

Definition newline : ascii := ascii_of_nat 10.
Definition carriage_return : ascii := ascii_of_nat 13.

Definition is_digit (c : ascii) : bool :=
  (48 <=? N_of_ascii c)%N && (N_of_ascii c <=? 57)%N.

Definition digit_value (c : ascii) : N := (N_of_ascii c - 48)%N.

Fixpoint strip_prefix (p s : text) : option text :=
  match p, s with
  | [], _ => Some s
  | a :: p', b :: s' => if Ascii.eqb a b then strip_prefix p' s' else None
  | _ :: _, [] => None
  end.

(** [sub in s] of Python, as a boolean. *)
Fixpoint contains (sub s : text) : bool :=
  match strip_prefix sub s with
  | Some _ => true
  | None => match s with
            | [] => false
            | _ :: s' => contains sub s'
            end
  end.

(** ** Regular expressions ([re.search])

    The fragment of Python's [re] syntax that the script uses: literal
    text, the classes [\d], [[\d.]] and [.] under the greedy quantifiers
    [+] and [*], alternation, grouping with capture. *)

Inductive charset : Set :=
| Digit      (* \d *)
| Numeric    (* [\d.] *)
| AnyChar.   (* . : any character except a newline *)

Definition in_charset (cs : charset) (c : ascii) : bool :=
  match cs with
  | Digit => is_digit c
  | Numeric => is_digit c || Ascii.eqb c "."
  | AnyChar => negb (Ascii.eqb c newline)
  end.

Inductive regex : Set :=
| Lit (l : text)
| Plus (cs : charset)
| Star (cs : charset)
| Alt (r1 r2 : regex)
| Group (n : nat) (r : regex)
| Cat (r1 r2 : regex).

Declare Scope regex_scope.
Delimit Scope regex_scope with regex.
Bind Scope regex_scope with regex.
Infix "~>" := Cat (at level 60, right associativity) : regex_scope.

(** The captures of a match: group number and the text it matched, the
    most recent first. *)
Definition captures := list (nat * text).

Fixpoint group (n : nat) (caps : captures) : option text :=
  match caps with
  | [] => None
  | (m, t) :: caps' => if Nat.eqb n m then Some t else group n caps'
  end.

(** The text consumed between the input [s] and its suffix [s']. *)
Definition consumed (s s' : text) : text :=
  firstn (length s - length s') s.

(** Greedy repetition of a class: the longest run first, then shorter
    ones on backtracking, down to [s] itself. *)
Fixpoint greedy {A : Type} (cs : charset) (s : text)
    (k : text -> option A) : option A :=
  match s with
  | c :: s' =>
      if in_charset cs c then
        match greedy cs s' k with
        | Some x => Some x
        | None => k s
        end
      else k s
  | [] => k []
  end.

(** Backtracking match of [r] at the start of [s], in continuation
    style: [k] receives the rest of the input and the captures so far;
    when it fails, the next alternative is tried. *)
Fixpoint rmatch (r : regex) (s : text) (caps : captures)
    (k : text -> captures -> option captures) {struct r} : option captures :=
  match r with
  | Lit l =>
      match strip_prefix l s with
      | Some s' => k s' caps
      | None => None
      end
  | Plus cs =>
      match s with
      | c :: s' =>
          if in_charset cs c then greedy cs s' (fun s'' => k s'' caps)
          else None
      | [] => None
      end
  | Star cs => greedy cs s (fun s'' => k s'' caps)
  | Alt r1 r2 =>
      match rmatch r1 s caps k with
      | Some c => Some c
      | None => rmatch r2 s caps k
      end
  | Group n r' =>
      rmatch r' s caps (fun s' caps' => k s' ((n, consumed s s') :: caps'))
  | Cat r1 r2 =>
      rmatch r1 s caps (fun s' caps' => rmatch r2 s' caps' k)
  end.

Definition match_here (r : regex) (s : text) : option captures :=
  rmatch r s [] (fun _ caps => Some caps).

(** [re.search(r, s)]: the first position, from the left, where [r]
    matches. *)
Fixpoint re_search (r : regex) (s : text) : option captures :=
  match match_here r s with
  | Some caps => Some caps
  | None =>
      match s with
      | [] => None
      | _ :: s' => re_search r s'
      end
  end.

(** r'Node (\d+):.*(?:Energy|Remaining)=([\d.]+)J' *)
Definition energy_re : regex :=
  (Lit (str "Node ") ~> Group 1 (Plus Digit) ~> Lit (str ":") ~> Star AnyChar
   ~> Alt (Lit (str "Energy")) (Lit (str "Remaining")) ~> Lit (str "=")
   ~> Group 2 (Plus Numeric) ~> Lit (str "J"))%regex.

(** r'Time: ([\d.]+)' *)
Definition time_re : regex :=
  (Lit (str "Time: ") ~> Group 1 (Plus Numeric))%regex.

(** r'PDR: ([\d.]+).*time ([\d.]+)' *)
Definition pdr_re : regex :=
  (Lit (str "PDR: ") ~> Group 1 (Plus Numeric) ~> Star AnyChar
   ~> Lit (str "time ") ~> Group 2 (Plus Numeric))%regex.

(** [m.group(n)] for a group that took part in the match. *)
Definition group_text (n : nat) (caps : captures) : text :=
  match group n caps with
  | Some t => t
  | None => []
  end.

(** ** Numbers *)

(** An integer as an exact (unrounded) binary floating-point datum. *)
Definition sf_of_Z (z : Z) : spec_float :=
  match z with
  | Z0 => S754_zero false
  | Zpos p => S754_finite false p 0
  | Zneg p => S754_finite true p 0
  end.

(** The binary64 value nearest to [num / den] (ties to even). *)
Definition float_of_ratio (num den : Z) : float :=
  SF2Prim (SFdiv prec emax (sf_of_Z num) (sf_of_Z den)).

(** The binary64 value nearest to the integer [z]. *)
Definition float_of_Z (z : Z) : float :=
  SF2Prim (binary_normalize prec emax z 0 false).

Definition digits_value (ds : text) : N :=
  fold_left (fun acc c => (10 * acc + digit_value c)%N) ds 0%N.

(** The default of [sys.get_int_max_str_digits()]: [int] refuses a text
    with more decimal digits than this, leading zeros included (CPython
    3.11, and the security releases of the versions before it). *)
Definition int_max_str_digits : nat := 4300.

(** [int(s)] on the strings [\d+] can capture: the value of a non-empty
    run of at most [int_max_str_digits] digits, and [ValueError] beyond
    that limit. Python also accepts a sign, surrounding blanks and
    underscores, which no capture contains. *)
Definition py_int (s : text) : result N :=
  if forallb is_digit s && negb (Nat.eqb (length s) 0)
     && (length s <=? int_max_str_digits)
  then Ok (digits_value s)
  else Raise ValueError.

(** Splits at the first ['.']: the text before it, and the text after it
    when there is one. *)
Fixpoint split_dot (s : text) : text * option text :=
  match s with
  | [] => ([], None)
  | c :: s' =>
      if Ascii.eqb c "." then ([], Some s')
      else let (a, b) := split_dot s' in (c :: a, b)
  end.

(** [float(s)] on the strings [[\d.]+] can capture: digits with at most
    one point and at least one digit, converted with correct rounding;
    anything else over that alphabet is a [ValueError]. Signs, exponents,
    blanks, underscores, [inf] and [nan] never occur in a capture. *)
Definition py_float (s : text) : result float :=
  let (ip, rest) := split_dot s in
  let fp := match rest with Some f => f | None => [] end in
  if forallb is_digit ip && forallb is_digit fp
     && negb (Nat.eqb (length (ip ++ fp)) 0)
  then Ok (float_of_ratio (Z.of_N (digits_value (ip ++ fp)))
                          (10 ^ Z.of_nat (length fp)))
  else Raise ValueError.


(** Python numbers as the aggregation code meets them: the [int] that
    [sum] starts from and the [float]s of the readings. *)
Inductive pynum : Set :=
| PyInt (z : Z)
| PyFloat (f : float).

(** [sum(xs)] over floats: [0 + x0 + x1 + ...] from left to right. The
    start value is the int [0], which is also the result for no items; the
    first addition converts it to [0.0]. (CPython 3.12 and later add the
    floats with a compensation term, which can change the last bit of the
    total; which readings are added, and in which order, is the same.) *)
Definition py_sum (xs : list float) : pynum :=
  match xs with
  | [] => PyInt 0
  | _ :: _ => PyFloat (fold_left PrimFloat.add xs PrimFloat.zero)
  end.

(** [total / n] for an int [n] (here always a [len], small enough to
    convert exactly): true division, a float, or [ZeroDivisionError]. *)
Definition py_truediv (total : pynum) (n : Z) : result pynum :=
  if (n =? 0)%Z then Raise ZeroDivisionError
  else Ok (PyFloat match total with
                   | PyInt z => float_of_ratio z n
                   | PyFloat f => PrimFloat.div f (float_of_Z n)
                   end).

(** ** The node-to-readings mapping

    [defaultdict(list)]: a dict keeps its keys in insertion order. *)

Definition node_series := list (N * list float).

Definition keys (d : node_series) : list N := map fst d.

Fixpoint dict_get (d : node_series) (k : N) : option (list float) :=
  match d with
  | [] => None
  | (k', v) :: d' => if N.eqb k k' then Some v else dict_get d' k
  end.

(** [d[k]] for a key of [d]. *)
Definition dict_item (d : node_series) (k : N) : list float :=
  match dict_get d k with
  | Some v => v
  | None => []
  end.

(** [d[k].append(x)]: the list of [k] is created, at the end of the
    mapping, when [k] is new. *)
Fixpoint dd_append (d : node_series) (k : N) (x : float) : node_series :=
  match d with
  | [] => [(k, [x])]
  | (k', v) :: d' =>
      if N.eqb k k' then (k', v ++ [x]) :: d'
      else (k', v) :: dd_append d' k x
  end.

(** ** Extraction *)

Section Loop.

Variable S : Type.
Variable step : S -> text -> result S.

(** [for line in f: ...], stopping at the first exception. *)
Fixpoint for_lines (st : S) (lines : list text) : result S :=
  match lines with
  | [] => Ok st
  | line :: rest => (st' <- step st line ;; for_lines st' rest)%result
  end.

End Loop.

Arguments for_lines {S} step st lines.

(** The body of the loop of [parse_energy_log]. *)
Definition energy_line (st : list float * node_series) (line : text)
  : result (list float * node_series) :=
  let '(times, node_energy) := st in
  (node_energy' <-
     match re_search energy_re line with
     | Some m =>
         node_id <- py_int (group_text 1 m) ;;
         energy <- py_float (group_text 2 m) ;;
         Ok (dd_append node_energy node_id energy)
     | None => Ok node_energy
     end ;;
   times' <-
     match re_search time_re line with
     | Some m => t <- py_float (group_text 1 m) ;; Ok (times ++ [t])
     | None => Ok times
     end ;;
   Ok (times', node_energy'))%result.

Definition parse_energy_lines (lines : list text)
  : result (list float * node_series) :=
  for_lines energy_line ([], []) lines.

(** The body of the loop of [parse_pdr_log]. *)
Definition pdr_line (st : list float * list float) (line : text)
  : result (list float * list float) :=
  let '(times, pdr_values) := st in
  match re_search pdr_re line with
  | Some m =>
      (pdr <- py_float (group_text 1 m) ;;
       t <- py_float (group_text 2 m) ;;
       Ok (times ++ [t], pdr_values ++ [pdr]))%result
  | None => Ok (times, pdr_values)
  end.

Definition parse_pdr_lines (lines : list text)
  : result (list float * list float) :=
  for_lines pdr_line ([], []) lines.

(** ** Files *)

Inductive fnode : Set :=
| RegularFile (readable : bool) (content : text)
| Directory.

Definition filesystem := string -> option fnode.

Definition os_path_exists (fs : filesystem) (filename : string) : bool :=
  match fs filename with
  | Some _ => true
  | None => false
  end.

(** Text mode reads every line end (CR, LF, CR LF) as a newline. *)
Fixpoint universal_newlines (s : text) : text :=
  match s with
  | [] => []
  | c :: s' =>
      if Ascii.eqb c carriage_return then
        newline ::
          match s' with
          | c' :: s'' =>
              if Ascii.eqb c' newline then universal_newlines s''
              else universal_newlines s'
          | [] => []
          end
      else c :: universal_newlines s'
  end.

(** The lines of a text, each with its newline (the last one may lack
    it). *)
Fixpoint split_lines (s : text) : list text :=
  match s with
  | [] => []
  | c :: s' =>
      if Ascii.eqb c newline then [c] :: split_lines s'
      else match split_lines s' with
           | [] => [[c]]
           | l :: ls => (c :: l) :: ls
           end
  end.

(** [open(filename, 'r')] and the lines the file object yields. The
    content of a file is its decoded text: bytes that do not decode (a
    [UnicodeDecodeError] of the file object) are outside this model. *)
Definition open_read (fs : filesystem) (filename : string)
  : result (list text) :=
  match fs filename with
  | None => Raise FileNotFoundError
  | Some Directory => Raise IsADirectoryError
  | Some (RegularFile false _) => Raise PermissionError
  | Some (RegularFile true content) =>
      Ok (split_lines (universal_newlines content))
  end.

(** ** Output: printed lines and chart calls *)

Inductive event : Set :=
| Print (msg : string)
| PltPlot (xs : list float) (ys : list pynum) (label : string)
| PltBar (xs heights : list pynum) (label : string)
| PltSavefig (file : string).

Definition io (A : Type) : Type := (list event * result A)%type.

Definition ret {A : Type} (a : A) : io A := ([], Ok a).

Definition bind {A B : Type} (m : io A) (f : A -> io B) : io B :=
  match m with
  | (tr, Ok a) => let (tr', r) := f a in (tr ++ tr', r)
  | (tr, Raise e) => (tr, Raise e)
  end.

Definition emit (e : event) : io unit := ([e], Ok tt).

Definition lift {A : Type} (r : result A) : io A := ([], r).

Declare Scope io_scope.
Delimit Scope io_scope with io.
Notation "x <- m ;; k" := (bind m (fun x => k))
  (at level 61, m at next level, right associativity) : io_scope.
Notation "' p <- m ;; k" := (bind m (fun x => let p := x in k))
  (at level 61, p pattern, m at next level, right associativity) : io_scope.
Notation "m ;; k" := (bind m (fun _ => k))
  (at level 61, right associativity) : io_scope.

Definition parse_energy_log (fs : filesystem) (filename : string)
  : io (option (list float) * option node_series) :=
  (if negb (os_path_exists fs filename) then
     emit (Print ("Error: File " ++ filename ++ " not found")%string) ;;
     ret (None, None)
   else
     lines <- lift (open_read fs filename) ;;
     ' (times, node_energy) <- lift (parse_energy_lines lines) ;;
     ret (Some times, Some node_energy))%io.

Definition parse_pdr_log (fs : filesystem) (filename : string)
  : io (list float * list float) :=
  (lines <- lift (open_read fs filename) ;;
   lift (parse_pdr_lines lines))%io.

(** ** Aggregation and rendering *)

(** [sorted(...)] on node identifiers: ascending order. *)
Fixpoint insert_sorted (x : N) (l : list N) : list N :=
  match l with
  | [] => [x]
  | y :: l' => if N.leb x y then x :: l else y :: insert_sorted x l'
  end.

Definition sorted (l : list N) : list N := fold_right insert_sorted [] l.

(** [sorted(node_energy.keys())] *)
Definition sorted_keys (node_energy : node_series) : list N :=
  sorted (keys node_energy).

Fixpoint mapM {A B : Type} (f : A -> result B) (l : list A)
  : result (list B) :=
  match l with
  | [] => Ok []
  | a :: l' => (b <- f a ;; bs <- mapM f l' ;; Ok (b :: bs))%result
  end.

(** The readings that the generator inside [sum(...)] yields at index
    [i]: [node_energy[nid][i] for nid in node_energy.keys() if
    i < len(node_energy[nid])]. *)
Definition readings_at (node_energy : node_series) (i : nat) : list float :=
  map (fun nid => nth i (dict_item node_energy nid) PrimFloat.zero)
      (filter (fun nid => i <? length (dict_item node_energy nid))
              (keys node_energy)).

(** The value of [avg_energy] after the [if node_energy:] block of
    [plot_average_energy]; [None] when the block is skipped and the
    variable is never bound. *)
Definition average_energy (times : list float) (node_energy : node_series)
  : result (option (list pynum)) :=
  match node_energy with
  | [] => Ok None
  | _ :: _ =>
      let num_nodes := length node_energy in
      (avg_energy <-
         mapM (fun i =>
                 let total := py_sum (readings_at node_energy i) in
                 if 0 <? num_nodes then py_truediv total (Z.of_nat num_nodes)
                 else Ok (PyInt 0))
              (seq 0 (length times)) ;;
       Ok (Some avg_energy))%result
  end.

Definition saved (output_file : string) : io unit :=
  (emit (PltSavefig output_file) ;;
   emit (Print ("[OK] Graph saved: " ++ output_file)%string))%io.

Definition plot_average_energy (times : list float)
    (node_energy : node_series) (output_file : string) : io unit :=
  (avg <- lift (average_energy times node_energy) ;;
   match avg with
   | Some avg_energy => emit (PltPlot times avg_energy "Average Energy")
   | None => ret tt
   end ;;
   saved output_file)%io.

Definition decimal (n : N) : string :=
  DecimalString.NilEmpty.string_of_uint (N.to_uint n).

Fixpoint for_each {A : Type} (f : A -> io unit) (l : list A) : io unit :=
  match l with
  | [] => ret tt
  | a :: l' => (f a ;; for_each f l')%io
  end.

Definition plot_energy_consumption (times : list float)
    (node_energy : node_series) (output_file : string) : io unit :=
  (for_each (fun node_id =>
               let energies := dict_item node_energy node_id in
               if Nat.eqb (length energies) (length times) then
                 emit (PltPlot times (map PyFloat energies)
                               ("Node " ++ decimal node_id)%string)
               else ret tt)
            (firstn 10 (sorted_keys node_energy)) ;;
   saved output_file)%io.

Definition plot_packet_delivery_ratio (times pdr_values : list float)
    (output_file : string) : io unit :=
  (match times, pdr_values with
   | _ :: _, _ :: _ =>
       emit (PltPlot times (map PyFloat pdr_values) "Packet Delivery Ratio")
   | _, _ => ret tt
   end ;;
   saved output_file)%io.

(** The two parallel lists that the loop of [plot_network_lifetime]
    builds: [(lifetimes, node_ids)]. *)
Definition lifetime_table (node_energy : node_series) : list nat * list N :=
  fold_left
    (fun '(lifetimes, node_ids) node_id =>
       let energies := dict_item node_energy node_id in
       let lifetime := length energies in
       (lifetimes ++ [lifetime], node_ids ++ [node_id]))
    (sorted_keys node_energy) ([], []).

(** [LifetimeTable[node]]: the lifetime at the position of [node] in
    [node_ids]. *)
Fixpoint lifetime_of (lifetimes : list nat) (node_ids : list N) (node : N)
  : option nat :=
  match lifetimes, node_ids with
  | l :: ls, n :: ns => if N.eqb node n then Some l else lifetime_of ls ns node
  | _, _ => None
  end.

Definition plot_network_lifetime (node_energy : node_series)
    (output_file : string) : io unit :=
  (let '(lifetimes, node_ids) := lifetime_table node_energy in
   emit (PltBar (map (fun n => PyInt (Z.of_N n)) (firstn 20 node_ids))
                (map (fun l => PyInt (Z.of_nat l)) (firstn 20 lifetimes))
                "") ;;
   saved output_file)%io.

Definition plot_energy_efficiency_comparison (output_file : string)
  : io unit :=
  (let energy_aware := [0.85; 0.82; 0.78; 0.75; 0.72]%float in
   let standard := [0.65; 0.60; 0.55; 0.50; 0.45]%float in
   let x := map float_of_Z [0; 1; 2; 3; 4]%Z in
   let width := 0.35%float in
   emit (PltBar (map (fun xi => PyFloat (xi - width / 2)%float) x)
                (map PyFloat energy_aware) "Energy-Aware") ;;
   emit (PltBar (map (fun xi => PyFloat (xi + width / 2)%float) x)
                (map PyFloat standard) "Standard Epidemic") ;;
   saved output_file)%io.

(** ** The top level *)

Definition nl : string := String newline EmptyString.

Fixpoint repeat_string (s : string) (n : nat) : string :=
  match n with
  | O => EmptyString
  | S n' => (s ++ repeat_string s n')%string
  end.

Definition rule : string := repeat_string "=" 60.

(** [log_file = 'simulation.log'], replaced by [sys.argv[1]] when there
    is one. *)
Definition log_file_of (argv : list string) : string :=
  if 1 <? length argv then nth 1 argv EmptyString
  else "simulation.log"%string.

(** [main()], with [sys.argv] and the file system as arguments. *)
Definition main (fs : filesystem) (argv : list string) : io unit :=
  (let log_file := log_file_of argv in
   emit (Print rule) ;;
   emit (Print "Energy-Aware Epidemic Routing - Graph Generation") ;;
   emit (Print rule) ;;
   emit (Print (nl ++ "Parsing log file: " ++ log_file)%string) ;;
   ' (times, node_energy) <- parse_energy_log fs log_file ;;
   match times with
   | None => emit (Print "Error: Could not parse log file")
   | Some times =>
       emit (Print (nl ++ "Generating graphs...")%string) ;;
       match times, node_energy with
       | _ :: _, Some ((_ :: _) as node_energy) =>
           plot_energy_consumption times node_energy "energy_consumption.png" ;;
           plot_average_energy times node_energy "average_energy.png" ;;
           plot_network_lifetime node_energy "network_lifetime.png"
       | _, _ => ret tt
       end ;;
       ' (times_pdr, pdr_values) <- parse_pdr_log fs log_file ;;
       match times_pdr, pdr_values with
       | _ :: _, _ :: _ =>
           plot_packet_delivery_ratio times_pdr pdr_values "pdr_graph.png"
       | _, _ => ret tt
       end ;;
       plot_energy_efficiency_comparison "energy_efficiency.png" ;;
       emit (Print (nl ++ rule)%string) ;;
       emit (Print "All graphs generated successfully!") ;;
       emit (Print rule) ;;
       emit (Print (nl ++ "Generated files:")%string) ;;
       emit (Print "  - energy_consumption.png") ;;
       emit (Print "  - average_energy.png") ;;
       emit (Print "  - pdr_graph.png") ;;
       emit (Print "  - network_lifetime.png") ;;
       emit (Print "  - energy_efficiency.png")
   end)%io.

(** * Vocabulary of the statements *)

(** [matches r w c c']: the regular expression [r] matches exactly the
    text [w], taking the captures from [c] to [c']. *)
Inductive matches : regex -> text -> captures -> captures -> Prop :=
| m_lit l c : matches (Lit l) l c c
| m_plus cs a w c :
    in_charset cs a = true -> forallb (in_charset cs) w = true ->
    matches (Plus cs) (a :: w) c c
| m_star cs w c :
    forallb (in_charset cs) w = true -> matches (Star cs) w c c
| m_alt_l r1 r2 w c c' : matches r1 w c c' -> matches (Alt r1 r2) w c c'
| m_alt_r r1 r2 w c c' : matches r2 w c c' -> matches (Alt r1 r2) w c c'
| m_group n r w c c' :
    matches r w c c' -> matches (Group n r) w c ((n, w) :: c')
| m_cat r1 r2 w1 w2 c c1 c2 :
    matches r1 w1 c c1 -> matches r2 w2 c1 c2 ->
    matches (Cat r1 r2) (w1 ++ w2) c c2.

(** A numeric field ([[\d.]+]) is a non-empty text of digits and
    points. *)
Definition numeric_field (s : text) : Prop :=
  forallb (in_charset Numeric) s = true /\ s <> [].

(** A digit field ([\d+]) is a non-empty text of digits. *)
Definition digit_field (s : text) : Prop :=
  forallb is_digit s = true /\ s <> [].

Definition is_point (c : ascii) : bool := Ascii.eqb c ".".

(** A text over digits and points is a float literal when it has a digit
    and at most one point. *)
Definition float_literal (s : text) : bool :=
  (length (filter is_point s) <=? 1) && existsb is_digit s.

(** The keys after [d[k]] was touched: [k] goes to the end when new. *)
Definition add_key (ks : list N) (k : N) : list N :=
  if existsb (N.eqb k) ks then ks else ks ++ [k].

(** The distinct elements of a list, in the order of their first
    occurrence. *)
Fixpoint first_seen (l : list N) : list N :=
  match l with
  | [] => []
  | x :: l' => x :: filter (fun y => negb (N.eqb y x)) (first_seen l')
  end.

(** The node a line reports a reading for, when it matches the energy
    pattern. *)
Definition energy_node (line : text) : option N :=
  match re_search energy_re line with
  | Some m =>
      match py_int (group_text 1 m) with
      | Ok n => Some n
      | Raise _ => None
      end
  | None => None
  end.

(** The nodes of the energy matches of a log, line by line. *)
Definition matched_nodes (lines : list text) : list N :=
  flat_map (fun line => match energy_node line with
                        | Some n => [n]
                        | None => []
                        end) lines.

(** The field that [r] captures as group [n] in [line], if [r] matches,
    is a float literal. *)
Definition field_is_literal (r : regex) (n : nat) (line : text) : bool :=
  match re_search r line with
  | Some m => float_literal (group_text n m)
  | None => true
  end.

(** The numerals that the energy and time patterns capture in [line]
    are float literals. *)
Definition energy_line_ok (line : text) : bool :=
  field_is_literal energy_re 2 line && field_is_literal time_re 1 line.

(** The node identifier that the energy pattern captures in [line], if
    it matches, is short enough for [int]. *)
Definition node_id_ok (line : text) : bool :=
  match re_search energy_re line with
  | Some m => length (group_text 1 m) <=? int_max_str_digits
  | None => true
  end.

(** Every conversion that the energy pass applies to [line] succeeds. *)
Definition energy_line_converts (line : text) : bool :=
  energy_line_ok line && node_id_ok line.

(** The readings at index [i] of the nodes whose sequence has at least
    [i + 1] elements, in the order of the mapping. *)
Definition column (ne : node_series) (i : nat) : list float :=
  map (fun entry => nth i (snd entry) PrimFloat.zero)
      (filter (fun entry => i + 1 <=? length (snd entry)) ne).

(** The quotient float of [total / n] for [n <> 0]. *)
Definition quotient (total : pynum) (n : Z) : float :=
  match total with
  | PyInt z => float_of_ratio z n
  | PyFloat f => PrimFloat.div f (float_of_Z n)
  end.

(** [LifetimeTable[node]] for the table that [plot_network_lifetime]
    builds from a mapping. *)
Definition lifetime (ne : node_series) (node : N) : option nat :=
  lifetime_of (fst (lifetime_table ne)) (snd (lifetime_table ne)) node.

(** The row that a line contributes: [(time, ratio)], when the line
    matches the whole pattern. *)
Definition pdr_row (line : text) : option (float * float) :=
  match re_search pdr_re line with
  | Some m =>
      match py_float (group_text 1 m), py_float (group_text 2 m) with
      | Ok pdr, Ok t => Some (t, pdr)
      | _, _ => None
      end
  | None => None
  end.

(** The rows of a log, in the order of its lines. *)
Definition pdr_rows (lines : list text) : list (float * float) :=
  flat_map (fun line => match pdr_row line with
                        | Some row => [row]
                        | None => []
                        end) lines.

(** The numerals that the PDR pattern captures in [line] are float
    literals. *)
Definition pdr_line_ok (line : text) : bool :=
  field_is_literal pdr_re 1 line && field_is_literal pdr_re 2 line.

(** The events that come from a chart call. *)
Definition is_chart_event (e : event) : bool :=
  match e with
  | Print _ => false
  | PltPlot _ _ _ | PltBar _ _ _ | PltSavefig _ => true
  end.

(** The seven lines of the end-to-end scenario. *)
Definition scenario_lines : list text :=
  [str "Time: 0.0";
   str "Node 1: Energy=1000.0J";
   str "Node 2: Energy=950.0J";
   str "Time: 1.0";
   str "Node 1: Energy=900.0J";
   str "Node 2: Energy=800.0J";
   str "PDR: 0.90 at time 1.0"].

(** The text of the log: every line followed by a newline. *)
Definition scenario_text : text :=
  concat (map (fun line => line ++ [newline]) scenario_lines).

(** A file system with that log under the default name. *)
Definition scenario_fs : filesystem :=
  fun filename =>
    if String.eqb filename "simulation.log"
    then Some (RegularFile true scenario_text)
    else None.

(** The mapping expected from the scenario. *)
Definition scenario_energy : node_series :=
  [(1%N, [1000%float; 900%float]); (2%N, [950%float; 800%float])].

(** A log whose time marker carries a numeral with two points. *)
Definition malformed_fs : filesystem :=
  fun filename =>
    if String.eqb filename "simulation.log"
    then Some (RegularFile true (str "Time: 1.2.3"))
    else None.

(** [re.search(r, line)] found a match. *)
Definition matches_pattern (r : regex) (line : text) : bool :=
  match re_search r line with
  | Some _ => true
  | None => false
  end.

(** The text has no newline, so [.*] can run over all of it. *)
Definition one_line (s : text) : Prop :=
  forallb (in_charset AnyChar) s = true.

(** The number of readings of a mapping, over all its nodes. *)
Definition total_readings (ne : node_series) : nat :=
  list_sum (map (fun entry => length (snd entry)) ne).

(** The line has neither marker of the energy pass. *)
Definition no_energy_marker (line : text) : bool :=
  negb (contains (str "Node ") line) && negb (contains (str "Time: ") line).

(** The names of the files that a trace saves, in order. *)
Definition saved_files (tr : list event) : list string :=
  flat_map (fun e => match e with
                     | PltSavefig file => [file]
                     | _ => []
                     end) tr.

(** A [float] value of Python, as opposed to an [int]. *)
Definition is_float (x : pynum) : bool :=
  match x with
  | PyFloat _ => true
  | PyInt _ => false
  end.

(** The banner that [main] prints before it reads the log. *)
Definition banner (log_file : string) : list event :=
  [Print rule;
   Print "Energy-Aware Epidemic Routing - Graph Generation";
   Print rule;
   Print (nl ++ "Parsing log file: " ++ log_file)%string].

(** The number of nodes of the mapping with an identifier smaller than
    [k]. *)
Definition smaller_keys (ne : node_series) (k : N) : nat :=
  length (filter (fun j => N.ltb j k) (keys ne)).

(** * Properties *)

(** ** What a successful match says about the line

    The backtracking matcher only returns matches in the relation
    [matches]. *)

Lemma strip_prefix_app (p s s' : text) :
  strip_prefix p s = Some s' -> s = p ++ s'.
Proof.
  revert s. induction p as [| a p IH]; intros [| b s] H; simpl in H.
  - now inversion H.
  - now inversion H.
  - discriminate.
  - destruct (Ascii.eqb a b) eqn:E; [| discriminate].
    apply Ascii.eqb_eq in E. subst b. simpl. f_equal. now apply IH.
Qed.

Lemma strip_prefix_self (p s : text) : strip_prefix p (p ++ s) = Some s.
Proof.
  induction p as [| a p IH]; simpl; [reflexivity |].
  now rewrite Ascii.eqb_refl.
Qed.

Lemma consumed_app (w s' : text) : consumed (w ++ s') s' = w.
Proof.
  unfold consumed. rewrite length_app.
  replace (length w + length s' - length s') with (length w) by lia.
  rewrite firstn_app, firstn_all, Nat.sub_diag. simpl. apply app_nil_r.
Qed.

Lemma greedy_sound (A : Type) (cs : charset) (s : text)
    (k : text -> option A) (x : A) :
  greedy cs s k = Some x ->
  exists w s', s = w ++ s' /\ forallb (in_charset cs) w = true /\ k s' = Some x.
Proof.
  induction s as [| c s IH]; simpl; intros H.
  - exists [], []. auto.
  - destruct (in_charset cs c) eqn:Hc.
    + destruct (greedy cs s k) as [y |] eqn:Hg.
      * inversion H; subst y.
        destruct (IH eq_refl) as (w & s' & -> & Hw & Hk).
        exists (c :: w), s'. simpl. rewrite Hc, Hw. auto.
      * exists [], (c :: s). auto.
    + exists [], (c :: s). auto.
Qed.

Lemma rmatch_sound (r : regex) :
  forall s caps k res,
    rmatch r s caps k = Some res ->
    exists w s' caps',
      s = w ++ s' /\ matches r w caps caps' /\ k s' caps' = Some res.
Proof.
  induction r as [l | cs | cs | r1 IH1 r2 IH2 | n r IH | r1 IH1 r2 IH2];
    intros s caps k res H; simpl in H.
  - destruct (strip_prefix l s) as [s' |] eqn:E; [| discriminate].
    apply strip_prefix_app in E.
    exists l, s', caps. repeat split; auto. constructor.
  - destruct s as [| c s]; [discriminate |].
    destruct (in_charset cs c) eqn:Hc; [| discriminate].
    apply greedy_sound in H. destruct H as (w & s' & -> & Hw & Hk).
    exists (c :: w), s', caps. repeat split; auto. now constructor.
  - apply greedy_sound in H. destruct H as (w & s' & -> & Hw & Hk).
    exists w, s', caps. repeat split; auto. now constructor.
  - destruct (rmatch r1 s caps k) as [c |] eqn:E.
    + inversion H; subst c.
      destruct (IH1 _ _ _ _ E) as (w & s' & caps' & -> & Hm & Hk).
      exists w, s', caps'. repeat split; auto. now apply m_alt_l.
    + destruct (IH2 _ _ _ _ H) as (w & s' & caps' & -> & Hm & Hk).
      exists w, s', caps'. repeat split; auto. now apply m_alt_r.
  - destruct (IH _ _ _ _ H) as (w & s' & caps' & -> & Hm & Hk).
    rewrite consumed_app in Hk.
    exists w, s', ((n, w) :: caps'). repeat split; auto. now constructor.
  - destruct (IH1 _ _ _ _ H) as (w1 & s1 & c1 & -> & Hm1 & Hk1).
    destruct (IH2 _ _ _ _ Hk1) as (w2 & s2 & c2 & -> & Hm2 & Hk2).
    exists (w1 ++ w2), s2, c2. rewrite app_assoc. repeat split; auto.
    econstructor; eauto.
Qed.

Lemma re_search_sound (r : regex) (s : text) (caps : captures) :
  re_search r s = Some caps ->
  exists pre w post, s = pre ++ w ++ post /\ matches r w [] caps.
Proof.
  induction s as [| c s IH]; simpl; intros H.
  - destruct (match_here r []) as [c0 |] eqn:E; [| discriminate].
    inversion H; subst c0. unfold match_here in E.
    apply rmatch_sound in E. destruct E as (w & s' & caps' & Hs & Hm & Hk).
    inversion Hk; subst caps'. exists [], w, s'. auto.
  - destruct (match_here r (c :: s)) as [c0 |] eqn:E.
    + inversion H; subst c0. unfold match_here in E.
      apply rmatch_sound in E. destruct E as (w & s' & caps' & Hs & Hm & Hk).
      inversion Hk; subst caps'. exists [], w, s'. auto.
    + destruct (IH H) as (pre & w & post & -> & Hm).
      exists (c :: pre), w, post. auto.
Qed.

Ltac invert_matches :=
  repeat match goal with
         | H : matches (Cat _ _) _ _ _ |- _ => inversion H; subst; clear H
         | H : matches (Group _ _) _ _ _ |- _ => inversion H; subst; clear H
         | H : matches (Lit _) _ _ _ |- _ => inversion H; subst; clear H
         | H : matches (Plus _) _ _ _ |- _ => inversion H; subst; clear H
         | H : matches (Star _) _ _ _ |- _ => inversion H; subst; clear H
         end.

Ltac app_norm := simpl; repeat (rewrite <- app_assoc; simpl).

Ltac shape_done :=
  repeat split; auto; try discriminate;
  try (app_norm; reflexivity);
  try (simpl forallb; apply andb_true_iff; split; assumption).

Lemma contains_prefix (sub s s' : text) :
  strip_prefix sub s = Some s' -> contains sub s = true.
Proof.
  intros H. destruct s; simpl; now rewrite H.
Qed.

Lemma contains_app (sub pre post : text) :
  contains sub (pre ++ sub ++ post) = true.
Proof.
  induction pre as [| c pre IH].
  - simpl. eapply contains_prefix, strip_prefix_self.
  - simpl. destruct (strip_prefix sub (c :: pre ++ sub ++ post));
      [reflexivity | exact IH].
Qed.

Lemma energy_match_shape (line : text) (m : captures) :
  re_search energy_re line = Some m ->
  exists pre d mid label e post,
    line = pre ++ str "Node " ++ d ++ str ":" ++ mid ++ label
               ++ str "=" ++ e ++ str "J" ++ post
    /\ (label = str "Energy" \/ label = str "Remaining")
    /\ group_text 1 m = d /\ group_text 2 m = e
    /\ digit_field d /\ numeric_field e.
Proof.
  intros H. apply re_search_sound in H.
  destruct H as (pre & w & post & -> & Hm).
  unfold energy_re in Hm. invert_matches.
  match goal with
  | H : matches (Alt _ _) ?lab ?c ?c' |- _ =>
      assert (Hlab : (lab = str "Energy" \/ lab = str "Remaining") /\ c' = c)
        by (inversion H; subst; invert_matches; auto);
      clear H; destruct Hlab as [Hlab ->]
  end.
  match goal with
  | |- context [(?a :: ?w) ++ [":"%char] ++ ?mid ++ ?lab ++ ["="%char]
                 ++ (?b :: ?v) ++ _] =>
      exists pre, (a :: w), mid, lab, (b :: v), post
  end.
  shape_done.
Qed.

Lemma time_match_shape (line : text) (m : captures) :
  re_search time_re line = Some m ->
  exists pre t post,
    line = pre ++ str "Time: " ++ t ++ post
    /\ group_text 1 m = t /\ numeric_field t.
Proof.
  intros H. apply re_search_sound in H.
  destruct H as (pre & w & post & -> & Hm).
  unfold time_re in Hm. invert_matches.
  match goal with
  | |- context [_ ++ (_ ++ ?a :: ?w) ++ _] => exists pre, (a :: w), post
  end.
  shape_done.
Qed.

Lemma pdr_match_shape (line : text) (m : captures) :
  re_search pdr_re line = Some m ->
  exists pre p mid t post,
    line = pre ++ str "PDR: " ++ p ++ mid ++ str "time " ++ t ++ post
    /\ group_text 1 m = p /\ group_text 2 m = t
    /\ numeric_field p /\ numeric_field t.
Proof.
  intros H. apply re_search_sound in H.
  destruct H as (pre & w & post & -> & Hm).
  unfold pdr_re in Hm. invert_matches.
  match goal with
  | |- context [(?a :: ?w) ++ ?mid ++ _ ++ (?b :: ?v)] =>
      exists pre, (a :: w), mid, (b :: v), post
  end.
  shape_done.
Qed.

(** A line that lacks either half of the two-field pattern is not a
    match of it. *)
Lemma pdr_needs_both_halves (line : text) :
  contains (str "PDR: ") line = false \/ contains (str "time ") line = false ->
  re_search pdr_re line = None.
Proof.
  intros H. destruct (re_search pdr_re line) as [m |] eqn:E; [| reflexivity].
  exfalso. apply pdr_match_shape in E.
  destruct E as (pre & p & mid & t & post & -> & _).
  destruct H as [H | H].
  - rewrite contains_app in H. discriminate.
  - replace (pre ++ str "PDR: " ++ p ++ mid ++ str "time " ++ t ++ post)
      with ((pre ++ str "PDR: " ++ p ++ mid) ++ str "time " ++ t ++ post) in H
      by (repeat rewrite <- app_assoc; reflexivity).
    rewrite contains_app in H. discriminate.
Qed.

(** ** Conversions of captured fields *)

Lemma is_digit_not_point (c : ascii) : is_digit c = true -> is_point c = false.
Proof.
  unfold is_point. destruct (Ascii.eqb c ".") eqn:E; [| reflexivity].
  apply Ascii.eqb_eq in E. subst c. discriminate.
Qed.

Lemma digits_no_point (s : text) :
  forallb is_digit s = true -> filter is_point s = [].
Proof.
  induction s as [| c s IH]; simpl; [reflexivity |].
  intros H. apply andb_true_iff in H. destruct H as [Hc Hs].
  now rewrite (is_digit_not_point _ Hc), IH.
Qed.

Lemma digits_exists (s : text) :
  forallb is_digit s = true -> existsb is_digit s = negb (length s =? 0).
Proof.
  destruct s as [| c s]; simpl; [reflexivity |].
  intros H. apply andb_true_iff in H. destruct H as [-> _]. reflexivity.
Qed.

Lemma numeric_digits (s : text) :
  forallb (in_charset Numeric) s = true ->
  forallb is_digit s = (length (filter is_point s) =? 0).
Proof.
  induction s as [| c s IH]; simpl; [reflexivity |].
  intros H. apply andb_true_iff in H. destruct H as [Hc Hs].
  fold (is_point c) in Hc |- *.
  destruct (is_point c) eqn:Hp.
  - simpl. destruct (is_digit c) eqn:Hd; [| reflexivity].
    apply is_digit_not_point in Hd. congruence.
  - rewrite orb_false_r in Hc. rewrite Hc. simpl. now apply IH.
Qed.

Lemma split_dot_spec (s : text) :
  forallb (in_charset Numeric) s = true ->
  forallb is_digit (fst (split_dot s)) = true /\
  match snd (split_dot s) with
  | None => s = fst (split_dot s)
  | Some fp =>
      s = fst (split_dot s) ++ "."%char :: fp
      /\ forallb (in_charset Numeric) fp = true
  end.
Proof.
  induction s as [| c s IH]; simpl; [auto |].
  intros H. apply andb_true_iff in H. destruct H as [Hc Hs].
  destruct (Ascii.eqb c ".") eqn:E.
  - apply Ascii.eqb_eq in E. subst c. simpl. auto.
  - rewrite orb_false_r in Hc.
    destruct (split_dot s) as [a b]. simpl in *.
    destruct (IH Hs) as [Ha Hb]. rewrite Hc, Ha. split; [reflexivity |].
    destruct b as [fp |].
    + destruct Hb as [-> Hfp]. auto.
    + now subst a.
Qed.

(** On a numeric field, [float] succeeds exactly on the float
    literals. *)
Lemma py_float_literal (s : text) :
  forallb (in_charset Numeric) s = true ->
  (exists f, py_float s = Ok f) <-> float_literal s = true.
Proof.
  intros Hs. pose proof (split_dot_spec s Hs) as [Hip Hrest].
  unfold py_float, float_literal.
  destruct (split_dot s) as [ip rest]. simpl in Hip, Hrest.
  rewrite Hip. simpl andb at 1.
  destruct rest as [fp |].
  - destruct Hrest as [-> Hfp].
    rewrite filter_app, existsb_app, length_app. simpl.
    rewrite (digits_no_point ip Hip). simpl.
    rewrite (numeric_digits fp Hfp).
    destruct (length (filter is_point fp)) as [| n] eqn:En; simpl.
    + assert (Hd : forallb is_digit fp = true)
        by (rewrite (numeric_digits fp Hfp), En; reflexivity).
      rewrite (digits_exists ip Hip), (digits_exists fp Hd).
      destruct ip, fp; cbn [length Nat.add Nat.eqb negb orb]; split; intros H;
        try (destruct H; discriminate); try discriminate; eauto.
    + split; [intros [f H]; discriminate | discriminate].
  - subst s. rewrite app_nil_r.
    rewrite (digits_no_point ip Hip), (digits_exists ip Hip). simpl.
    destruct (length ip =? 0); cbn [negb andb]; split; intros H;
      try (destruct H; discriminate); try discriminate; eauto.
Qed.

Lemma py_int_digits (d : text) :
  digit_field d -> (length d <=? int_max_str_digits) = true ->
  py_int d = Ok (digits_value d).
Proof.
  intros [Hd Hne] Hlen. unfold py_int. rewrite Hd, Hlen.
  destruct d; [congruence | reflexivity].
Qed.

Lemma py_int_raise (s : text) (e : exn) :
  py_int s = Raise e -> e = ValueError.
Proof.
  unfold py_int. destruct (_ && _); [discriminate |].
  intros H. now inversion H.
Qed.

Lemma py_int_too_long (d : text) :
  (length d <=? int_max_str_digits) = false -> py_int d = Raise ValueError.
Proof.
  intros H. unfold py_int. rewrite H. now rewrite andb_false_r.
Qed.

(** ** The mapping *)

Lemma dd_append_get (d : node_series) (k : N) (x : float) :
  dict_get (dd_append d k x) k = Some (dict_item d k ++ [x]).
Proof.
  unfold dict_item. induction d as [| [k' v] d IH]; simpl.
  - now rewrite N.eqb_refl.
  - destruct (N.eqb k k') eqn:E; simpl; rewrite E; [reflexivity | exact IH].
Qed.

Lemma dd_append_get_other (d : node_series) (k k' : N) (x : float) :
  k' <> k -> dict_get (dd_append d k x) k' = dict_get d k'.
Proof.
  intros Hne. induction d as [| [k0 v] d IH]; simpl.
  - destruct (N.eqb k' k) eqn:E; [| reflexivity].
    apply N.eqb_eq in E. contradiction.
  - destruct (N.eqb k k0) eqn:E; simpl.
    + apply N.eqb_eq in E. subst k0.
      destruct (N.eqb k' k) eqn:E'; [| reflexivity].
      apply N.eqb_eq in E'. contradiction.
    + destruct (N.eqb k' k0); [reflexivity | exact IH].
Qed.

Lemma dd_append_keys (d : node_series) (k : N) (x : float) :
  keys (dd_append d k x) = add_key (keys d) k.
Proof.
  unfold add_key. induction d as [| [k' v] d IH]; simpl; [reflexivity |].
  destruct (N.eqb k k') eqn:E; simpl; [reflexivity |].
  rewrite IH. now destruct (existsb (N.eqb k) (keys d)).
Qed.

Lemma existsb_eqb_In (k : N) (ks : list N) :
  existsb (N.eqb k) ks = true <-> In k ks.
Proof.
  rewrite existsb_exists. split.
  - intros (y & Hy & E). apply N.eqb_eq in E. now subst.
  - intros H. exists k. split; [assumption | apply N.eqb_refl].
Qed.

Lemma add_key_NoDup (ks : list N) (k : N) :
  NoDup ks -> NoDup (add_key ks k).
Proof.
  intros H. unfold add_key. destruct (existsb (N.eqb k) ks) eqn:E; [exact H |].
  apply NoDup_app; [exact H | repeat constructor; intros [] | ].
  intros a Ha [<- | []].
  apply existsb_eqb_In in Ha. congruence.
Qed.

Lemma filter_filter (A : Type) (f g : A -> bool) (l : list A) :
  filter f (filter g l) = filter (fun a => g a && f a) l.
Proof.
  induction l as [| a l IH]; simpl; [reflexivity |].
  destruct (g a); simpl; [destruct (f a) |]; now rewrite IH.
Qed.

Lemma fold_add_key (l acc : list N) :
  fold_left add_key l acc
  = acc ++ filter (fun y => negb (existsb (N.eqb y) acc)) (first_seen l).
Proof.
  revert acc. induction l as [| x l IH]; intros acc; simpl.
  - now rewrite app_nil_r.
  - rewrite IH. unfold add_key.
    destruct (existsb (N.eqb x) acc) eqn:E; simpl.
    + f_equal. rewrite filter_filter. apply filter_ext. intros y.
      destruct (N.eqb y x) eqn:Eyx; simpl; [| reflexivity].
      apply N.eqb_eq in Eyx. subst y. now rewrite E.
    + rewrite <- app_assoc. simpl. do 2 f_equal.
      rewrite filter_filter. apply filter_ext. intros y.
      rewrite existsb_app. simpl. rewrite orb_false_r, negb_orb.
      apply andb_comm.
Qed.

Lemma fold_add_key_first_seen (l : list N) :
  fold_left add_key l [] = first_seen l.
Proof.
  rewrite fold_add_key. cbn [app existsb negb].
  induction (first_seen l) as [| a l' IH]; simpl; congruence.
Qed.

(** ** The loops *)

Lemma for_lines_app (S : Type) (step : S -> text -> result S)
    (l1 l2 : list text) (st : S) :
  for_lines step st (l1 ++ l2)
  = rbind (for_lines step st l1) (fun st' => for_lines step st' l2).
Proof.
  revert st. induction l1 as [| l l1 IH]; intros st; simpl; [reflexivity |].
  destruct (step st l); simpl; [apply IH | reflexivity].
Qed.

Lemma energy_line_keys (times times' : list float) (ne ne' : node_series)
    (line : text) :
  energy_line (times, ne) line = Ok (times', ne') ->
  keys ne' = fold_left add_key (matched_nodes [line]) (keys ne).
Proof.
  unfold energy_line, matched_nodes, energy_node. simpl.
  destruct (re_search energy_re line) as [m |]; simpl.
  - destruct (py_int (group_text 1 m)) as [n | e]; simpl; [| discriminate].
    destruct (py_float (group_text 2 m)) as [x | e]; simpl; [| discriminate].
    destruct (re_search time_re line) as [m' |]; simpl.
    + destruct (py_float (group_text 1 m')); simpl; [| discriminate].
      intros H. inversion H; subst. apply dd_append_keys.
    + intros H. inversion H; subst. apply dd_append_keys.
  - destruct (re_search time_re line) as [m' |]; simpl.
    + destruct (py_float (group_text 1 m')); simpl; [| discriminate].
      intros H. now inversion H.
    + intros H. now inversion H.
Qed.

Lemma matched_nodes_app (l1 l2 : list text) :
  matched_nodes (l1 ++ l2) = matched_nodes l1 ++ matched_nodes l2.
Proof. apply flat_map_app. Qed.

Lemma for_energy_lines_keys (lines : list text) :
  forall times ne times' ne',
    for_lines energy_line (times, ne) lines = Ok (times', ne') ->
    keys ne' = fold_left add_key (matched_nodes lines) (keys ne).
Proof.
  induction lines as [| line lines IH]; intros times ne times' ne' H.
  - simpl in H. now inversion H.
  - cbn [for_lines] in H.
    destruct (energy_line (times, ne) line) as [[t1 ne1] | e] eqn:E;
      [| discriminate].
    simpl in H. apply IH in H. rewrite H.
    change (line :: lines) with ([line] ++ lines).
    rewrite matched_nodes_app, fold_left_app.
    now rewrite (energy_line_keys _ _ _ _ _ E).
Qed.

Lemma parse_energy_keys (lines : list text) (times : list float)
    (ne : node_series) :
  parse_energy_lines lines = Ok (times, ne) ->
  keys ne = first_seen (matched_nodes lines).
Proof.
  intros H. apply for_energy_lines_keys in H.
  now rewrite H, <- fold_add_key_first_seen.
Qed.

Lemma parse_energy_NoDup (lines : list text) (times : list float)
    (ne : node_series) :
  parse_energy_lines lines = Ok (times, ne) -> NoDup (keys ne).
Proof.
  intros H. apply for_energy_lines_keys in H. rewrite H. simpl.
  generalize (matched_nodes lines) as l.
  assert (Hnil : NoDup (@nil N)) by constructor. revert Hnil.
  generalize (@nil N) as acc. intros acc Hacc l. revert acc Hacc.
  induction l as [| x l IH]; intros acc Hacc; simpl; [exact Hacc |].
  apply IH. now apply add_key_NoDup.
Qed.

(** ** Energy and time extraction, line by line *)

Lemma numeric_field_float (s : text) :
  numeric_field s -> float_literal s = true -> exists f, py_float s = Ok f.
Proof.
  intros [Hs _] Hl. now apply py_float_literal.
Qed.

(** C2: the two matches of a line are not independent when the energy
    match captures a numeral that is not a float literal. On the line
    below the time pattern matches and its capture [3.0] converts, but
    the conversion of the energy capture [1..2] raises [ValueError]
    first: the loop body, and with it the whole pass, ends before the
    time is appended. *)
Theorem time_lost_after_malformed_energy :
  re_search time_re (str "Time: 3.0 Node 1: Energy=1..2J")
  = Some [(1, str "3.0")]
  /\ py_float (str "3.0") = Ok 3%float
  /\ re_search energy_re (str "Time: 3.0 Node 1: Energy=1..2J")
     = Some [(2, str "1..2"); (1, str "1")]
  /\ py_float (str "1..2") = Raise ValueError
  /\ energy_line ([], []) (str "Time: 3.0 Node 1: Energy=1..2J")
     = Raise ValueError
  /\ parse_energy_lines [str "Time: 3.0 Node 1: Energy=1..2J"]
     = Raise ValueError.
Proof.
  repeat split; vm_compute; reflexivity.
Qed.

(** After any prefix of the log, a further line whose captured numerals
    are float literals and whose node identifier is within the limit of
    [int] extends the result by two independent matches: an energy match
    appends the reading to the list of its node, which is created at the
    end of the mapping when the node is new, and leaves every other node
    alone; a time match appends to the time list, whatever the energy
    match did; a failed match changes nothing on its side. The keys of
    the mapping are the matched nodes in the order of their first
    appearance in the log. *)
Theorem energy_time_extraction_step (lines : list text) (line : text)
    (times : list float) (ne : node_series) :
  parse_energy_lines lines = Ok (times, ne) ->
  energy_line_ok line = true ->
  node_id_ok line = true ->
  exists times' ne',
    parse_energy_lines (lines ++ [line]) = Ok (times', ne')
    /\ match re_search energy_re line with
       | Some m =>
           exists node_id energy,
             py_int (group_text 1 m) = Ok node_id
             /\ py_float (group_text 2 m) = Ok energy
             /\ dict_get ne' node_id = Some (dict_item ne node_id ++ [energy])
             /\ (forall k, k <> node_id -> dict_get ne' k = dict_get ne k)
             /\ keys ne' = add_key (keys ne) node_id
       | None => ne' = ne
       end
    /\ match re_search time_re line with
       | Some m =>
           exists t, py_float (group_text 1 m) = Ok t /\ times' = times ++ [t]
       | None => times' = times
       end
    /\ keys ne' = first_seen (matched_nodes (lines ++ [line])).
Proof.
  intros Hparse Hok Hid.
  assert (Hstep : exists times' ne',
             energy_line (times, ne) line = Ok (times', ne')
             /\ match re_search energy_re line with
                | Some m =>
                    exists node_id energy,
                      py_int (group_text 1 m) = Ok node_id
                      /\ py_float (group_text 2 m) = Ok energy
                      /\ ne' = dd_append ne node_id energy
                | None => ne' = ne
                end
             /\ match re_search time_re line with
                | Some m =>
                    exists t,
                      py_float (group_text 1 m) = Ok t /\ times' = times ++ [t]
                | None => times' = times
                end).
  { unfold energy_line_ok, field_is_literal in Hok.
    apply andb_true_iff in Hok. destruct Hok as [He Ht].
    unfold node_id_ok in Hid. unfold energy_line.
    destruct (re_search energy_re line) as [m |] eqn:Em;
      destruct (re_search time_re line) as [m' |] eqn:Em'.
    - destruct (energy_match_shape _ _ Em)
        as (pre & d & mid & lab & e & post & _ & _ & Hd & Hg & Hdf & Hnf).
      destruct (time_match_shape _ _ Em') as (pre' & t & post' & _ & Hgt & Htf).
      rewrite Hd, Hg in *. rewrite Hgt in *.
      destruct (numeric_field_float _ Hnf He) as [fe Hx].
      destruct (numeric_field_float _ Htf Ht) as [ft Hy].
      rewrite (py_int_digits _ Hdf Hid), Hx, Hy. simpl.
      eexists _, _. split; [reflexivity |]. split; eauto.
    - destruct (energy_match_shape _ _ Em)
        as (pre & d & mid & lab & e & post & _ & _ & Hd & Hg & Hdf & Hnf).
      rewrite Hd, Hg in *.
      destruct (numeric_field_float _ Hnf He) as [fe Hx].
      rewrite (py_int_digits _ Hdf Hid), Hx. simpl.
      eexists _, _. split; [reflexivity |]. split; eauto.
    - destruct (time_match_shape _ _ Em') as (pre' & t & post' & _ & Hgt & Htf).
      rewrite Hgt in *.
      destruct (numeric_field_float _ Htf Ht) as [ft Hy].
      rewrite Hy. simpl.
      eexists _, _. split; [reflexivity |]. split; eauto.
    - simpl. eexists _, _. split; [reflexivity |]. split; reflexivity. }
  destruct Hstep as (times' & ne' & Hline & Henergy & Htime).
  assert (Hall : parse_energy_lines (lines ++ [line]) = Ok (times', ne')).
  { unfold parse_energy_lines in *. rewrite for_lines_app, Hparse.
    cbn [rbind for_lines]. now rewrite Hline. }
  exists times', ne'. split; [exact Hall |]. split; [| split].
  - destruct (re_search energy_re line) as [m |]; [| exact Henergy].
    destruct Henergy as (node_id & energy & Hi & Hf & ->).
    exists node_id, energy. repeat split; auto.
    + apply dd_append_get.
    + intros k Hk. now apply dd_append_get_other.
    + apply dd_append_keys.
  - exact Htime.
  - now apply parse_energy_keys with (times := times').
Qed.

Lemma energy_time_extraction_step_witness :
  exists times' ne',
    parse_energy_lines ([str "Node 7: Energy=5.0J"]
                          ++ [str "Time: 2.5 Node 7: Remaining=4.5J"])
    = Ok (times', ne')
    /\ dict_get ne' 7%N = Some [5%float; 4.5%float]
    /\ times' = [2.5%float].
Proof.
  destruct (@energy_time_extraction_step
              [str "Node 7: Energy=5.0J"]
              (str "Time: 2.5 Node 7: Remaining=4.5J")
              [] [(7%N, [5%float])])
    as (times' & ne' & Hp & He & Ht & _).
  - vm_compute. reflexivity.
  - vm_compute. reflexivity.
  - vm_compute. reflexivity.
  - exists times', ne'. split; [exact Hp |].
    vm_compute in He. destruct He as (node_id & energy & Hi & Hf & Hg & _).
    vm_compute in Ht. destruct Ht as (t & Hft & ->).
    inversion Hi; subst node_id. inversion Hf; subst energy.
    inversion Hft; subst t. split; [exact Hg | reflexivity].
Defined.

(** ** Aggregation *)

Lemma dict_get_In (d : node_series) (k : N) (v : list float) :
  NoDup (keys d) -> In (k, v) d -> dict_get d k = Some v.
Proof.
  induction d as [| [k' v'] d IH]; simpl; intros Hnd Hin; [contradiction |].
  inversion Hnd as [| ? ? Hnotin Hnd']; subst.
  destruct Hin as [Heq | Hin].
  - inversion Heq; subst. now rewrite N.eqb_refl.
  - destruct (N.eqb k k') eqn:E.
    + apply N.eqb_eq in E. subst k'. exfalso. apply Hnotin.
      change k with (fst (k, v)). now apply in_map.
    + now apply IH.
Qed.

Lemma dict_get_keys (d : node_series) (k : N) :
  In k (keys d) <-> exists v, dict_get d k = Some v.
Proof.
  induction d as [| [k' v'] d IH]; simpl.
  - split; [contradiction | intros [v H]; discriminate].
  - destruct (N.eqb k k') eqn:E.
    + apply N.eqb_eq in E. subst k'. split; eauto.
    + rewrite IH. split; [| tauto].
      intros [H | H]; [| exact H]. subst k'. rewrite N.eqb_refl in E.
      discriminate.
Qed.

Lemma readings_of_entries (ne l : node_series) (i : nat) :
  NoDup (keys ne) -> incl l ne ->
  map (fun nid => nth i (dict_item ne nid) PrimFloat.zero)
      (filter (fun nid => i <? length (dict_item ne nid)) (keys l))
  = column l i.
Proof.
  intros Hnd. unfold column, keys.
  induction l as [| [k v] l IH]; intros Hsub; simpl; [reflexivity |].
  assert (Hk : dict_item ne k = v).
  { unfold dict_item. rewrite (dict_get_In _ _ _ Hnd (Hsub _ (or_introl eq_refl))).
    reflexivity. }
  rewrite Hk.
  replace (i + 1 <=? length v) with (i <? length v)
    by (unfold Nat.ltb; f_equal; lia).
  assert (Hl : incl l ne) by (intros e He; apply Hsub; now right).
  destruct (i <? length v); simpl.
  - rewrite Hk. f_equal. now apply IH.
  - now apply IH.
Qed.

Lemma readings_at_column (ne : node_series) (i : nat) :
  NoDup (keys ne) -> readings_at ne i = column ne i.
Proof.
  intros Hnd. apply readings_of_entries; [exact Hnd | apply incl_refl].
Qed.

Lemma mapM_total (A B : Type) (f : A -> result B) (g : A -> B) (l : list A) :
  (forall a, In a l -> f a = Ok (g a)) -> mapM f l = Ok (map g l).
Proof.
  induction l as [| a l IH]; simpl; intros H; [reflexivity |].
  rewrite (H a (or_introl eq_refl)). simpl.
  rewrite IH by (intros; apply H; now right). reflexivity.
Qed.

Lemma py_truediv_nonzero (total : pynum) (n : Z) :
  n <> 0%Z -> py_truediv total n = Ok (PyFloat (quotient total n)).
Proof.
  intros H. unfold py_truediv. destruct (Z.eqb_spec n 0); [contradiction |].
  reflexivity.
Qed.

Lemma float_of_ratio_zero (n : Z) :
  (0 < n)%Z -> float_of_ratio 0 n = PrimFloat.zero.
Proof.
  destruct n as [| p | p]; intros H; try lia. reflexivity.
Qed.

(** C1: for a mapping with at least one node (and, as in any dict, no
    key twice), the average series has one value per time index, and
    the value at index [i] is the sum of the readings at [i] of the nodes
    that have one, divided by the number of distinct nodes of the whole
    mapping. The sum is spelled out in binary64 operations: the readings
    are added to [0.0] one after the other, in the order of the mapping
    (as [sum] does up to CPython 3.11; from 3.12 on it carries a
    compensation term, which can change the last bits of a total of three
    or more readings); with no reading at [i] the value is [0.0]. *)
Theorem average_series_pointwise (times : list float) (ne : node_series) :
  ne <> [] ->
  NoDup (keys ne) ->
  exists avg,
    average_energy times ne = Ok (Some avg)
    /\ length avg = length times
    /\ forall i, i < length times ->
         nth_error avg i
         = Some (PyFloat
                   match column ne i with
                   | [] => PrimFloat.zero
                   | _ :: _ =>
                       PrimFloat.div
                         (fold_left PrimFloat.add (column ne i) PrimFloat.zero)
                         (float_of_Z
                            (Z.of_nat (length (nodup N.eq_dec (keys ne)))))
                   end).
Proof.
  intros Hne Hnd.
  set (n := Z.of_nat (length ne)).
  assert (Hpos : (0 < n)%Z)
    by (destruct ne; [congruence | subst n; simpl; lia]).
  assert (Hn : n <> 0%Z) by lia.
  set (g := fun i => PyFloat (quotient (py_sum (readings_at ne i)) n)).
  exists (map g (seq 0 (length times))).
  split; [| split].
  - unfold average_energy. destruct ne as [| e ne']; [congruence |].
    rewrite mapM_total with (g := g); [reflexivity |].
    intros i _. cbv zeta.
    replace (0 <? length (e :: ne')) with true by (simpl; reflexivity).
    unfold g. now apply py_truediv_nonzero.
  - now rewrite length_map, length_seq.
  - intros i Hi.
    rewrite nth_error_map, nth_error_seq.
    replace (i <? length times) with true
      by (symmetry; apply Nat.ltb_lt; exact Hi).
    cbn [option_map Nat.add]. unfold g.
    rewrite nodup_fixed_point by exact Hnd.
    unfold keys. rewrite length_map. fold n.
    rewrite readings_at_column by exact Hnd.
    destruct (column ne i) as [| x xs]; cbn [py_sum quotient].
    + now rewrite float_of_ratio_zero.
    + reflexivity.
Qed.

Lemma average_series_pointwise_witness :
  exists avg,
    average_energy [0%float; 1%float]
      [(1%N, [1000%float; 900%float]); (2%N, [950%float; 600%float]);
       (3%N, [150%float])]
    = Ok (Some avg)
    /\ length avg = 2
    /\ nth_error avg 0 = Some (PyFloat 700%float)
    /\ nth_error avg 1 = Some (PyFloat 500%float).
Proof.
  destruct (average_series_pointwise [0%float; 1%float]
              [(1%N, [1000%float; 900%float]); (2%N, [950%float; 600%float]);
               (3%N, [150%float])])
    as (avg & Havg & Hlen & Hnth).
  - discriminate.
  - repeat constructor; simpl; intuition discriminate.
  - exists avg. split; [exact Havg |]. split; [exact Hlen |].
    pose proof (Hnth 0 ltac:(simpl; lia)) as H0.
    pose proof (Hnth 1 ltac:(simpl; lia)) as H1.
    vm_compute in H0. vm_compute in H1. split; [exact H0 | exact H1].
Defined.

(** C5, as stated, fails: for an empty mapping no average series is
    produced at all, so in particular no series of zeros. *)
Lemma average_of_no_nodes_is_not_zeros :
  ~ (exists avg,
       average_energy [0%float] [] = Ok (Some avg) /\ length avg = 1).
Proof.
  intros (avg & H & _). discriminate H.
Qed.

(** C5, amended: for an empty mapping the guard [if node_energy:] skips
    the computation: no average series is bound and no line is plotted,
    whatever the time sequence is; nothing is divided, so nothing is
    divided by zero, and the chart file is still written. *)
Theorem average_of_no_nodes_is_skipped (times : list float)
    (output_file : string) :
  average_energy times [] = Ok None
  /\ plot_average_energy times [] output_file
     = ([PltSavefig output_file;
         Print ("[OK] Graph saved: " ++ output_file)%string], Ok tt).
Proof.
  split; reflexivity.
Qed.

(** ** Lifetimes *)

Lemma insert_sorted_In (x a : N) (l : list N) :
  In a (insert_sorted x l) <-> a = x \/ In a l.
Proof.
  induction l as [| y l IH]; simpl.
  - intuition.
  - destruct (N.leb x y); simpl; [intuition |]. rewrite IH. intuition.
Qed.

Lemma sorted_In (a : N) (l : list N) : In a (sorted l) <-> In a l.
Proof.
  induction l as [| x l IH]; simpl; [reflexivity |].
  rewrite insert_sorted_In, IH. intuition.
Qed.

Lemma lifetime_loop (ne : node_series) (ks : list N) :
  forall lifetimes node_ids,
    fold_left
      (fun '(lifetimes, node_ids) node_id =>
         let energies := dict_item ne node_id in
         let lifetime := length energies in
         (lifetimes ++ [lifetime], node_ids ++ [node_id]))
      ks (lifetimes, node_ids)
    = (lifetimes ++ map (fun k => length (dict_item ne k)) ks,
       node_ids ++ ks).
Proof.
  induction ks as [| k ks IH]; intros lifetimes node_ids; simpl.
  - now rewrite !app_nil_r.
  - rewrite IH, <- !app_assoc. reflexivity.
Qed.

Lemma lifetime_table_map (ne : node_series) :
  lifetime_table ne
  = (map (fun k => length (dict_item ne k)) (sorted_keys ne), sorted_keys ne).
Proof.
  unfold lifetime_table. now rewrite lifetime_loop.
Qed.

Lemma lifetime_of_map (g : N -> nat) (ks : list N) (node : N) :
  In node ks -> lifetime_of (map g ks) ks node = Some (g node).
Proof.
  induction ks as [| k ks IH]; simpl; [contradiction |].
  intros Hin. destruct (N.eqb node k) eqn:E.
  - apply N.eqb_eq in E. now subst k.
  - apply IH. destruct Hin as [-> | Hin]; [| exact Hin].
    rewrite N.eqb_refl in E. discriminate.
Qed.

Lemma lifetime_length (ne : node_series) (node : N) (es : list float) :
  dict_get ne node = Some es -> lifetime ne node = Some (length es).
Proof.
  intros Hget. unfold lifetime. rewrite lifetime_table_map. simpl.
  rewrite lifetime_of_map.
  - unfold dict_item. now rewrite Hget.
  - apply sorted_In, dict_get_keys. eauto.
Qed.

Lemma energy_line_count (times times' : list float) (ne ne' : node_series)
    (line : text) (node : N) :
  energy_line (times, ne) line = Ok (times', ne') ->
  length (dict_item ne' node)
  = length (dict_item ne node)
    + count_occ N.eq_dec (matched_nodes [line]) node.
Proof.
  unfold energy_line, matched_nodes, energy_node. simpl.
  destruct (re_search energy_re line) as [m |]; simpl.
  - destruct (py_int (group_text 1 m)) as [n | e]; simpl; [| discriminate].
    destruct (py_float (group_text 2 m)) as [x | e]; simpl; [| discriminate].
    intros H.
    assert (Hne' : ne' = dd_append ne n x).
    { destruct (re_search time_re line) as [m' |]; simpl in H.
      - destruct (py_float (group_text 1 m')); simpl in H; [| discriminate].
        now inversion H.
      - now inversion H. }
    subst ne'. destruct (N.eq_dec n node) as [-> | Hn].
    + unfold dict_item at 1. rewrite dd_append_get, length_app. reflexivity.
    + unfold dict_item. rewrite dd_append_get_other by congruence. lia.
  - intros H.
    assert (Hne' : ne' = ne).
    { destruct (re_search time_re line) as [m' |]; simpl in H.
      - destruct (py_float (group_text 1 m')); simpl in H; [| discriminate].
        now inversion H.
      - now inversion H. }
    subst ne'. lia.
Qed.

Lemma for_energy_lines_count (lines : list text) (node : N) :
  forall times ne times' ne',
    for_lines energy_line (times, ne) lines = Ok (times', ne') ->
    length (dict_item ne' node)
    = length (dict_item ne node)
      + count_occ N.eq_dec (matched_nodes lines) node.
Proof.
  induction lines as [| line lines IH]; intros times ne times' ne' H.
  - simpl in H. inversion H; subst. simpl. lia.
  - cbn [for_lines] in H.
    destruct (energy_line (times, ne) line) as [[t1 ne1] | e] eqn:E;
      [| discriminate].
    simpl in H. apply IH in H. rewrite H.
    rewrite (energy_line_count _ _ _ _ _ node E).
    change (line :: lines) with ([line] ++ lines).
    rewrite matched_nodes_app, count_occ_app. lia.
Qed.

(** C4: the lifetime of a node of the mapping is the length of its
    sequence of readings; for a mapping extracted from a log that is the
    number of energy matches that name the node; and any mapping with
    the same sequence for this node gives it the same lifetime, whatever
    its other nodes and their order are. *)
Theorem lifetime_is_reading_count (ne : node_series) (node : N)
    (es : list float) :
  dict_get ne node = Some es ->
  lifetime ne node = Some (length es)
  /\ (forall lines times,
        parse_energy_lines lines = Ok (times, ne) ->
        length es = count_occ N.eq_dec (matched_nodes lines) node)
  /\ (forall ne',
        dict_get ne' node = Some es -> lifetime ne' node = lifetime ne node).
Proof.
  intros Hget. split; [| split].
  - now apply lifetime_length.
  - intros lines times Hparse.
    apply for_energy_lines_count with (node := node) in Hparse.
    unfold dict_item in Hparse. rewrite Hget in Hparse. simpl in Hparse.
    exact Hparse.
  - intros ne' Hget'.
    now rewrite (lifetime_length _ _ _ Hget), (lifetime_length _ _ _ Hget').
Qed.

Lemma lifetime_is_reading_count_witness :
  lifetime [(9%N, [3%float]); (4%N, [8%float; 7%float; 6%float])] 4%N
  = Some 3.
Proof.
  exact (proj1 (lifetime_is_reading_count
                  [(9%N, [3%float]); (4%N, [8%float; 7%float; 6%float])]
                  4%N [8%float; 7%float; 6%float] eq_refl)).
Defined.

(** ** The PDR pass *)

Lemma combine_snoc (A B : Type) (l : list A) (l' : list B) (a : A) (b : B) :
  length l = length l' ->
  combine (l ++ [a]) (l' ++ [b]) = combine l l' ++ [(a, b)].
Proof.
  revert l'. induction l as [| x l IH]; intros [| y l'] H; simpl in *;
    try discriminate; [reflexivity |].
  f_equal. apply IH. lia.
Qed.

Lemma pdr_line_rows (times pdr_values times' pdr_values' : list float)
    (line : text) :
  pdr_line (times, pdr_values) line = Ok (times', pdr_values') ->
  length times = length pdr_values ->
  length times' = length pdr_values'
  /\ combine times' pdr_values'
     = combine times pdr_values ++ pdr_rows [line].
Proof.
  unfold pdr_line, pdr_rows, pdr_row. simpl.
  destruct (re_search pdr_re line) as [m |].
  - destruct (py_float (group_text 1 m)) as [p | e]; simpl; [| discriminate].
    destruct (py_float (group_text 2 m)) as [t | e]; simpl; [| discriminate].
    intros H Hlen. inversion H; subst. split.
    + rewrite !length_app. simpl. lia.
    + now apply combine_snoc.
  - intros H Hlen. inversion H; subst. simpl. now rewrite app_nil_r.
Qed.

Lemma pdr_rows_app (l1 l2 : list text) :
  pdr_rows (l1 ++ l2) = pdr_rows l1 ++ pdr_rows l2.
Proof. apply flat_map_app. Qed.

Lemma for_pdr_lines_rows (lines : list text) :
  forall times pdr_values times' pdr_values',
    for_lines pdr_line (times, pdr_values) lines = Ok (times', pdr_values') ->
    length times = length pdr_values ->
    length times' = length pdr_values'
    /\ combine times' pdr_values'
       = combine times pdr_values ++ pdr_rows lines.
Proof.
  induction lines as [| line lines IH];
    intros times pdr_values times' pdr_values' H Hlen.
  - simpl in H. inversion H; subst. simpl. now rewrite app_nil_r.
  - cbn [for_lines] in H.
    destruct (pdr_line (times, pdr_values) line) as [[t1 p1] | e] eqn:E;
      [| discriminate].
    simpl in H. destruct (pdr_line_rows _ _ _ _ _ E Hlen) as [Hlen1 Hrows1].
    destruct (IH _ _ _ _ H Hlen1) as [Hlen2 Hrows2].
    split; [exact Hlen2 |].
    change (line :: lines) with ([line] ++ lines).
    now rewrite Hrows2, Hrows1, pdr_rows_app, app_assoc.
Qed.

Lemma py_float_raise (s : text) (e : exn) :
  forallb (in_charset Numeric) s = true -> py_float s = Raise e ->
  e = ValueError /\ float_literal s = false.
Proof.
  intros Hs H. split.
  - unfold py_float in H. destruct (split_dot s) as [ip rest].
    destruct (_ && _) in H; [discriminate |]. now inversion H.
  - destruct (float_literal s) eqn:E; [| reflexivity].
    apply py_float_literal in E; [| exact Hs]. destruct E as [f Hf].
    congruence.
Qed.

Lemma pdr_line_raise (st : list float * list float) (line : text) (e : exn) :
  pdr_line st line = Raise e -> e = ValueError /\ pdr_line_ok line = false.
Proof.
  destruct st as [times pdr_values].
  unfold pdr_line, pdr_line_ok, field_is_literal.
  destruct (re_search pdr_re line) as [m |] eqn:Em; [| discriminate].
  destruct (pdr_match_shape _ _ Em)
    as (pre & p & mid & t & post & _ & Hp & Ht & [Hpf _] & [Htf _]).
  rewrite Hp, Ht.
  destruct (py_float p) as [fp | e1] eqn:E1; cbn [rbind].
  - destruct (py_float t) as [ft | e2] eqn:E2; cbn [rbind]; [discriminate |].
    intros H. inversion H; subst e2.
    destruct (py_float_raise _ _ Htf E2) as [-> Hl]. rewrite Hl.
    split; [reflexivity | apply andb_false_r].
  - intros H. inversion H; subst e1.
    destruct (py_float_raise _ _ Hpf E1) as [-> Hl]. now rewrite Hl.
Qed.

Lemma for_pdr_lines_raise (lines : list text) :
  forall st e,
    for_lines pdr_line st lines = Raise e ->
    e = ValueError /\ exists line, In line lines /\ pdr_line_ok line = false.
Proof.
  induction lines as [| line lines IH]; intros st e H; [discriminate |].
  cbn [for_lines] in H. destruct (pdr_line st line) as [st' | e'] eqn:E.
  - cbn [rbind] in H. destruct (IH _ _ H) as (-> & l & Hin & Hl).
    split; [reflexivity |]. exists l. split; [now right | exact Hl].
  - cbn [rbind] in H. inversion H; subst e'.
    destruct (pdr_line_raise _ _ _ E) as [-> Hl].
    split; [reflexivity |]. exists line. split; [now left | exact Hl].
Qed.

(** C6: whenever the PDR pass returns, its two sequences have the same
    length and, zipped, are the rows of the lines that match the whole
    two-field pattern, one row per such line and in log order (it fails to
    return only with the [ValueError] of a captured numeral that is not a
    float literal); a line that lacks either half of the pattern gives no
    row and leaves both sequences as they are. *)
Theorem pdr_series_parallel (lines : list text) :
  match parse_pdr_lines lines with
  | Ok (times, pdr_values) =>
      length times = length pdr_values
      /\ combine times pdr_values = pdr_rows lines
  | Raise e =>
      e = ValueError
      /\ exists line, In line lines /\ pdr_line_ok line = false
  end
  /\ (forall line ts ps,
        contains (str "PDR: ") line = false
        \/ contains (str "time ") line = false ->
        pdr_row line = None /\ pdr_line (ts, ps) line = Ok (ts, ps)).
Proof.
  split.
  - destruct (parse_pdr_lines lines) as [[times pdr_values] | e] eqn:H.
    + apply for_pdr_lines_rows in H; [exact H | reflexivity].
    + now apply for_pdr_lines_raise in H.
  - intros line ts ps H. split.
    + unfold pdr_row. now rewrite (pdr_needs_both_halves _ H).
    + unfold pdr_line. now rewrite (pdr_needs_both_halves _ H).
Qed.

Lemma pdr_series_parallel_witness :
  pdr_rows [str "PDR: 0.85"; str "PDR: 0.5 at time 10.0"; str "at time 20.0"]
  = [(10%float, 0.5%float)]
  /\ pdr_line ([10%float], [0.5%float]) (str "PDR: 0.85")
     = Ok ([10%float], [0.5%float]).
Proof.
  pose proof (pdr_series_parallel
                [str "PDR: 0.85"; str "PDR: 0.5 at time 10.0";
                 str "at time 20.0"]) as [Hrun Hhalf].
  split.
  - assert (E : parse_pdr_lines [str "PDR: 0.85"; str "PDR: 0.5 at time 10.0";
                                 str "at time 20.0"]
              = Ok ([10%float], [0.5%float])) by (vm_compute; reflexivity).
    rewrite E in Hrun. destruct Hrun as [_ Hrows]. symmetry. exact Hrows.
  - apply Hhalf. right. vm_compute. reflexivity.
Defined.

(** ** Files that are not there *)

(** C7: on a path that names no file the energy pass prints its message
    and returns the pair of [None]s, but the PDR pass has no such check
    and raises [FileNotFoundError] from [open]. *)
Theorem pdr_pass_raises_on_missing_file (fs : filesystem)
    (filename : string) :
  fs filename = None ->
  parse_energy_log fs filename
  = ([Print ("Error: File " ++ filename ++ " not found")%string],
     Ok (None, None))
  /\ parse_pdr_log fs filename = ([], Raise FileNotFoundError).
Proof.
  intros H. unfold parse_energy_log, parse_pdr_log, os_path_exists, open_read.
  rewrite H. split; reflexivity.
Qed.

Lemma pdr_pass_raises_on_missing_file_witness :
  parse_pdr_log (fun _ => None) "simulation.log"
  = ([], Raise FileNotFoundError).
Proof.
  exact (proj2 (pdr_pass_raises_on_missing_file
                  (fun _ => None) "simulation.log" eq_refl)).
Defined.

(** C8: when the log file is missing, [main] prints the banner, the
    message of the extractor and its own diagnostic, makes no chart call
    at all, and returns normally. *)
Theorem main_missing_file (fs : filesystem) (argv : list string) :
  fs (log_file_of argv) = None ->
  main fs argv
  = ([Print rule;
      Print "Energy-Aware Epidemic Routing - Graph Generation";
      Print rule;
      Print (nl ++ "Parsing log file: " ++ log_file_of argv)%string;
      Print ("Error: File " ++ log_file_of argv ++ " not found")%string;
      Print "Error: Could not parse log file"],
     Ok tt)
  /\ filter is_chart_event (fst (main fs argv)) = []
  /\ snd (main fs argv) = Ok tt.
Proof.
  intros H.
  assert (Hmain : main fs argv
                  = ([Print rule;
                      Print "Energy-Aware Epidemic Routing - Graph Generation";
                      Print rule;
                      Print (nl ++ "Parsing log file: "
                                ++ log_file_of argv)%string;
                      Print ("Error: File " ++ log_file_of argv
                                ++ " not found")%string;
                      Print "Error: Could not parse log file"],
                     Ok tt)).
  { unfold main, parse_energy_log, os_path_exists. rewrite H. reflexivity. }
  rewrite Hmain. repeat split.
Qed.

Lemma main_missing_file_witness :
  snd (main (fun _ => None) ["generate_graphs.py"; "absent.log"]%string)
  = Ok tt.
Proof.
  exact (proj2 (proj2 (main_missing_file
                         (fun _ => None)
                         ["generate_graphs.py"; "absent.log"]%string
                         eq_refl))).
Defined.

(** ** Determinism *)

(** C9: the results of both passes are determined by the text of the
    file: two runs, in any two file systems and under any two names,
    over files with the same text give the same time sequence, the same
    mapping with its keys in the same order, and the same PDR series;
    the key order is that of first appearance in the text. *)
Theorem extraction_deterministic (fs1 fs2 : filesystem)
    (file1 file2 : string) (content : text) :
  fs1 file1 = Some (RegularFile true content) ->
  fs2 file2 = Some (RegularFile true content) ->
  parse_energy_log fs1 file1 = parse_energy_log fs2 file2
  /\ parse_pdr_log fs1 file1 = parse_pdr_log fs2 file2
  /\ (forall tr times ne,
        parse_energy_log fs1 file1 = (tr, Ok (Some times, Some ne)) ->
        keys ne
        = first_seen
            (matched_nodes (split_lines (universal_newlines content)))).
Proof.
  intros H1 H2.
  unfold parse_energy_log, parse_pdr_log, os_path_exists, open_read.
  rewrite H1, H2. repeat split.
  intros tr times ne H. cbn [negb] in H. unfold bind, lift, ret in H.
  destruct (parse_energy_lines (split_lines (universal_newlines content)))
    as [[ts d] | e] eqn:E; [| discriminate].
  inversion H; subst. now apply parse_energy_keys with (times := times).
Qed.

(** ** The end-to-end scenario *)

Lemma extraction_deterministic_witness :
  parse_energy_log scenario_fs "simulation.log"
  = parse_energy_log (fun _ => Some (RegularFile true scenario_text)) "copy.log"
  /\ parse_pdr_log scenario_fs "simulation.log"
     = parse_pdr_log (fun _ => Some (RegularFile true scenario_text)) "copy.log".
Proof.
  destruct (extraction_deterministic
              scenario_fs (fun _ => Some (RegularFile true scenario_text))
              "simulation.log" "copy.log" scenario_text eq_refl eq_refl)
    as (He & Hp & _).
  split; [exact He | exact Hp].
Defined.

(** C3: on the seven-line log the passes and the aggregation give
    exactly the expected series; the PDR line adds nothing to the time
    sequence, because the time pattern does not match it. *)
Theorem scenario_end_to_end :
  split_lines (universal_newlines scenario_text)
  = map (fun line => line ++ [newline]) scenario_lines
  /\ parse_energy_lines (split_lines (universal_newlines scenario_text))
     = Ok ([0%float; 1%float], scenario_energy)
  /\ average_energy [0%float; 1%float] scenario_energy
     = Ok (Some [PyFloat 975%float; PyFloat 850%float])
  /\ lifetime_table scenario_energy = ([2; 2], [1%N; 2%N])
  /\ lifetime scenario_energy 1%N = Some 2
  /\ lifetime scenario_energy 2%N = Some 2
  /\ parse_pdr_lines (split_lines (universal_newlines scenario_text))
     = Ok ([1%float], [0.9%float])
  /\ re_search time_re (str "PDR: 0.90 at time 1.0") = None
  /\ filter is_chart_event (fst (main scenario_fs ["generate_graphs.py"%string]))
     = [PltPlot [0%float; 1%float] [PyFloat 1000%float; PyFloat 900%float]
          "Node 1";
        PltPlot [0%float; 1%float] [PyFloat 950%float; PyFloat 800%float]
          "Node 2";
        PltSavefig "energy_consumption.png";
        PltPlot [0%float; 1%float] [PyFloat 975%float; PyFloat 850%float]
          "Average Energy";
        PltSavefig "average_energy.png";
        PltBar [PyInt 1; PyInt 2] [PyInt 2; PyInt 2] "";
        PltSavefig "network_lifetime.png";
        PltPlot [1%float] [PyFloat 0.9%float] "Packet Delivery Ratio";
        PltSavefig "pdr_graph.png";
        PltBar (map (fun x => PyFloat (float_of_Z x - 0.35 / 2)%float)
                    [0; 1; 2; 3; 4]%Z)
               (map PyFloat [0.85; 0.82; 0.78; 0.75; 0.72]%float)
               "Energy-Aware";
        PltBar (map (fun x => PyFloat (float_of_Z x + 0.35 / 2)%float)
                    [0; 1; 2; 3; 4]%Z)
               (map PyFloat [0.65; 0.60; 0.55; 0.50; 0.45]%float)
               "Standard Epidemic";
        PltSavefig "energy_efficiency.png"].
Proof.
  repeat split; vm_compute; reflexivity.
Qed.

(** ** Numerals that are not float literals *)

Lemma float_not_literal (s : text) :
  forallb (in_charset Numeric) s = true -> float_literal s = false ->
  py_float s = Raise ValueError.
Proof.
  intros Hs Hl. destruct (py_float s) as [f | e] eqn:E.
  - assert (Ht : float_literal s = true) by (apply py_float_literal; eauto).
    congruence.
  - unfold py_float in E. destruct (split_dot s) as [ip rest].
    destruct (_ && _) in E; [discriminate |]. now inversion E.
Qed.

(** A line with a captured numeral that is not a float literal makes the
    loop body of the energy pass raise [ValueError]. *)
Lemma energy_line_raises (st : list float * node_series) (line : text) :
  energy_line_ok line = false -> energy_line st line = Raise ValueError.
Proof.
  intros Hbad. destruct st as [times ne].
  unfold energy_line_ok, field_is_literal in Hbad. unfold energy_line.
  destruct (re_search energy_re line) as [m |] eqn:Em.
  - destruct (energy_match_shape _ _ Em)
      as (pre & d & mid & lab & e & post & _ & _ & Hd & Hg & Hdf & Hnf).
    rewrite Hd, Hg in *.
    destruct (py_int d) as [n | err] eqn:Hint; cbn [rbind];
      [| now rewrite (py_int_raise _ _ Hint)].
    destruct (float_literal e) eqn:He.
    + destruct (numeric_field_float _ Hnf He) as [fe Hfe]. rewrite Hfe.
      cbn [rbind andb] in *.
      destruct (re_search time_re line) as [m' |] eqn:Em'; [| discriminate].
      destruct (time_match_shape _ _ Em') as (pre' & t & post' & _ & Hgt & Htf).
      rewrite Hgt in *. destruct Htf as [Htf _].
      now rewrite (float_not_literal _ Htf Hbad).
    + destruct Hnf as [Hnf _]. now rewrite (float_not_literal _ Hnf He).
  - cbn [rbind andb] in *.
    destruct (re_search time_re line) as [m' |] eqn:Em'; [| discriminate].
    destruct (time_match_shape _ _ Em') as (pre' & t & post' & _ & Hgt & Htf).
    rewrite Hgt in *. destruct Htf as [Htf _].
    now rewrite (float_not_literal _ Htf Hbad).
Qed.

(** C10: the numeric field pattern also captures texts that are not
    float literals, and the conversion of such a capture raises
    [ValueError] out of the pass, and out of [main]. *)
Theorem extraction_raises_on_malformed_numeral :
  re_search time_re (str "Time: 1.2.3") = Some [(1, str "1.2.3")]
  /\ py_float (str "1.2.3") = Raise ValueError
  /\ parse_energy_lines [str "Time: 1.2.3"] = Raise ValueError
  /\ parse_energy_lines [str "Node 1: Energy=.J"] = Raise ValueError
  /\ parse_pdr_lines [str "PDR: 0..9 at time 5"] = Raise ValueError
  /\ re_search time_re (str "Run finished at Time: 10.5.")
     = Some [(1, str "10.5.")]
  /\ parse_energy_lines [str "Run finished at Time: 10.5."]
     = Raise ValueError
  /\ snd (main malformed_fs ["generate_graphs.py"%string])
     = Raise ValueError.
Proof.
  repeat split; vm_compute; reflexivity.
Qed.

(** * Further properties of the script *)

(** ** The matcher finds every match *)

Lemma greedy_fallback (A : Type) (cs : charset) (s : text)
    (k : text -> option A) :
  k s <> None -> greedy cs s k <> None.
Proof.
  destruct s as [| c s]; simpl; [auto |].
  intros H. destruct (in_charset cs c); [| exact H].
  destruct (greedy cs s k); [discriminate | exact H].
Qed.

Lemma greedy_complete (A : Type) (cs : charset) (w s' : text)
    (k : text -> option A) :
  forallb (in_charset cs) w = true -> k s' <> None ->
  greedy cs (w ++ s') k <> None.
Proof.
  induction w as [| c w IH]; simpl; intros Hw Hk.
  - now apply greedy_fallback.
  - apply andb_true_iff in Hw. destruct Hw as [Hc Hw]. rewrite Hc.
    destruct (greedy cs (w ++ s') k) eqn:E; [discriminate |].
    exfalso. now apply (IH Hw Hk).
Qed.

Lemma rmatch_complete (r : regex) (w : text) (c c' : captures) :
  matches r w c c' ->
  forall s' k, k s' c' <> None -> rmatch r (w ++ s') c k <> None.
Proof.
  induction 1 as [l c | cs a w c Ha Hw | cs w c Hw
                  | r1 r2 w c c' _ IH | r1 r2 w c c' _ IH
                  | n r w c c' _ IH
                  | r1 r2 w1 w2 c c1 c2 _ IH1 _ IH2];
    intros s' k Hk; simpl.
  - now rewrite strip_prefix_self.
  - rewrite Ha. now apply greedy_complete.
  - now apply greedy_complete.
  - destruct (rmatch r1 (w ++ s') c k) eqn:E; [discriminate |].
    exfalso. now apply (IH s' k Hk).
  - destruct (rmatch r1 (w ++ s') c k); [discriminate |]. now apply IH.
  - apply IH. now rewrite consumed_app.
  - rewrite <- app_assoc. apply IH1. now apply IH2.
Qed.

Lemma re_search_here (r : regex) (s : text) :
  match_here r s <> None -> re_search r s <> None.
Proof.
  intros H. destruct s; simpl; destruct (match_here r _);
    congruence.
Qed.

Lemma re_search_complete (r : regex) (pre w post : text) (caps : captures) :
  matches r w [] caps -> re_search r (pre ++ w ++ post) <> None.
Proof.
  intros Hm. induction pre as [| c pre IH].
  - apply re_search_here. unfold match_here. simpl.
    apply (rmatch_complete _ _ _ _ Hm). discriminate.
  - simpl. destruct (match_here r (c :: pre ++ w ++ post));
      [discriminate | exact IH].
Qed.

(** [re.search] succeeds exactly on the texts with a part that the
    expression matches. *)
Lemma re_search_iff (r : regex) (s : text) :
  matches_pattern r s = true <->
  exists pre w post caps, s = pre ++ w ++ post /\ matches r w [] caps.
Proof.
  unfold matches_pattern. split.
  - destruct (re_search r s) as [caps |] eqn:E; [| discriminate].
    intros _. apply re_search_sound in E.
    destruct E as (pre & w & post & Hs & Hm). eauto 6.
  - intros (pre & w & post & caps & -> & Hm).
    pose proof (re_search_complete _ pre _ post _ Hm) as H.
    destruct (re_search r (pre ++ w ++ post)); congruence.
Qed.

(** ** The lines that the patterns recognise *)

Lemma field_cons (cs : charset) (a : ascii) (w : text) :
  in_charset cs a = true -> forallb (in_charset cs) w = true ->
  forallb (in_charset cs) (a :: w) = true.
Proof.
  intros Ha Hw. simpl. now rewrite Ha, Hw.
Qed.

Lemma matches_plus_field (cs : charset) (w : text) (c : captures) :
  forallb (in_charset cs) w = true -> w <> [] -> matches (Plus cs) w c c.
Proof.
  destruct w as [| a w]; [congruence |]. simpl. intros H _.
  apply andb_true_iff in H. destruct H. now constructor.
Qed.

(** A line gives an energy reading exactly when it contains [Node ], a
    run of digits, a colon, any text without a newline, one of the two
    labels, [=], a run of digits and points, and [J], in that order. *)
Theorem energy_pattern_lines (line : text) :
  matches_pattern energy_re line = true <->
  exists pre d mid label e post,
    line = pre ++ str "Node " ++ d ++ str ":" ++ mid ++ label
               ++ str "=" ++ e ++ str "J" ++ post
    /\ (label = str "Energy" \/ label = str "Remaining")
    /\ digit_field d /\ one_line mid /\ numeric_field e.
Proof.
  rewrite re_search_iff. split.
  - intros (pre & w & post & caps & -> & Hm).
    unfold energy_re in Hm. invert_matches.
    match goal with
    | H : matches (Alt _ _) ?lab ?c ?c' |- _ =>
        assert (Hlab : lab = str "Energy" \/ lab = str "Remaining")
          by (inversion H; subst; invert_matches; auto);
        clear H
    end.
    match goal with
    | Hmid : forallb (in_charset AnyChar) ?mid = true |- 
        context [(?a :: ?w) ++ [":"%char] ++ ?mid ++ ?lab ++ ["="%char]
                   ++ (?b :: ?v) ++ _] =>
        exists pre, (a :: w), mid, lab, (b :: v), post
    end.
    unfold digit_field, numeric_field, one_line.
    repeat split; auto; try discriminate;
      try (app_norm; reflexivity);
      try (apply (field_cons Digit); assumption);
      try (apply (field_cons Numeric); assumption).
  - intros (pre & d & mid & label & e & post & -> & Hlab & [Hd Hdn] & Hmid
            & [He Hen]).
    exists pre, (str "Node " ++ d ++ str ":" ++ mid ++ label
                     ++ str "=" ++ e ++ str "J"), post,
      [(2, e); (1, d)].
    split; [repeat rewrite <- app_assoc; reflexivity |].
    unfold energy_re.
    apply m_cat with (c1 := []); [constructor |].
    apply m_cat with (c1 := [(1, d)]);
      [constructor; now apply (matches_plus_field Digit) |].
    apply m_cat with (c1 := [(1, d)]); [constructor |].
    apply m_cat with (c1 := [(1, d)]); [now constructor |].
    apply m_cat with (c1 := [(1, d)]).
    { destruct Hlab as [-> | ->]; [apply m_alt_l | apply m_alt_r]; constructor. }
    apply m_cat with (c1 := [(1, d)]); [constructor |].
    apply m_cat with (c1 := [(2, e); (1, d)]);
      [constructor; now apply (matches_plus_field Numeric) | constructor].
Qed.

(** A line gives a time marker exactly when it contains [Time: ]
    directly followed by a digit or a point. *)
Theorem time_pattern_lines (line : text) :
  matches_pattern time_re line = true <->
  exists pre c post,
    line = pre ++ str "Time: " ++ c :: post /\ in_charset Numeric c = true.
Proof.
  rewrite re_search_iff. split.
  - intros (pre & w & post & caps & -> & Hm).
    unfold time_re in Hm. invert_matches.
    match goal with
    | |- context [_ ++ (_ ++ ?a :: ?w) ++ _] => exists pre, a, (w ++ post)
    end.
    split; [app_norm; reflexivity | assumption].
  - intros (pre & c & post & -> & Hc).
    exists pre, (str "Time: " ++ [c]), post, [(1, [c])].
    split; [app_norm; reflexivity |].
    unfold time_re. apply m_cat with (c1 := []); [constructor |].
    constructor. now constructor.
Qed.

(** A line gives a PDR row exactly when it contains [PDR: ], a run of
    digits and points, any text without a newline, [time ] and a digit
    or a point, in that order. *)
Theorem pdr_pattern_lines (line : text) :
  matches_pattern pdr_re line = true <->
  exists pre p mid c post,
    line = pre ++ str "PDR: " ++ p ++ mid ++ str "time " ++ c :: post
    /\ numeric_field p /\ one_line mid /\ in_charset Numeric c = true.
Proof.
  rewrite re_search_iff. split.
  - intros (pre & w & post & caps & -> & Hm).
    unfold pdr_re in Hm. invert_matches.
    match goal with
    | Hmid : forallb (in_charset AnyChar) ?mid = true |-
        context [(?a :: ?w) ++ ?mid ++ _ ++ (?b :: ?v)] =>
        exists pre, (a :: w), mid, b, (v ++ post)
    end.
    unfold numeric_field, one_line.
    repeat split; auto; try discriminate;
      try (app_norm; reflexivity);
      try (apply (field_cons Numeric); assumption).
  - intros (pre & p & mid & c & post & -> & [Hp Hpn] & Hmid & Hc).
    exists pre, (str "PDR: " ++ p ++ mid ++ str "time " ++ [c]), post,
      [(2, [c]); (1, p)].
    split; [repeat rewrite <- app_assoc; reflexivity |].
    unfold pdr_re.
    apply m_cat with (c1 := []); [constructor |].
    apply m_cat with (c1 := [(1, p)]);
      [constructor; now apply (matches_plus_field Numeric) |].
    apply m_cat with (c1 := [(1, p)]); [now constructor |].
    apply m_cat with (c1 := [(1, p)]); [constructor |].
    constructor. now constructor.
Qed.

(** ** The captured time is the longest run *)

Lemma greedy_longest (A : Type) (cs : charset) (f : text -> A) (s : text) :
  exists run rest,
    s = run ++ rest
    /\ forallb (in_charset cs) run = true
    /\ match rest with
       | [] => True
       | c :: _ => in_charset cs c = false
       end
    /\ greedy cs s (fun s'' => Some (f s'')) = Some (f rest).
Proof.
  induction s as [| c s IH]; simpl.
  - exists [], []. auto.
  - destruct (in_charset cs c) eqn:Hc.
    + destruct IH as (run & rest & -> & Hrun & Hrest & ->).
      exists (c :: run), rest. simpl. rewrite Hc, Hrun. auto.
    + exists [], (c :: s). simpl. auto.
Qed.

Lemma time_match_here (s : text) (m : captures) :
  match_here time_re s = Some m ->
  exists t post,
    s = str "Time: " ++ t ++ post
    /\ m = [(1, t)]
    /\ numeric_field t
    /\ match post with
       | [] => True
       | c :: _ => in_charset Numeric c = false
       end.
Proof.
  unfold match_here, time_re. cbn [rmatch].
  destruct (strip_prefix (str "Time: ") s) as [s1 |] eqn:E; [| discriminate].
  apply strip_prefix_app in E. subst s.
  destruct s1 as [| c s1]; [discriminate |].
  destruct (in_charset Numeric c) eqn:Hc; [| discriminate].
  destruct (greedy_longest _ Numeric
              (fun s'' => [(1, consumed (c :: s1) s'')]) s1)
    as (run & rest & -> & Hrun & Hrest & Hg).
  intros H. pose proof (eq_trans (eq_sym H) Hg) as Hm.
  inversion Hm; subst m. clear H Hg Hm.
  change (c :: run ++ rest) with ((c :: run) ++ rest).
  rewrite consumed_app.
  exists (c :: run), rest. repeat split; auto; try discriminate.
  now apply (field_cons Numeric).
Qed.

(** The time that a line contributes stands directly after a [Time: ]
    marker and is the whole run of digits and points there: the
    character after it, if any, is neither. A point that ends a sentence
    is therefore part of the capture. *)
Theorem time_capture_maximal (line : text) (m : captures) :
  re_search time_re line = Some m ->
  exists pre post,
    line = pre ++ str "Time: " ++ group_text 1 m ++ post
    /\ numeric_field (group_text 1 m)
    /\ match post with
       | [] => True
       | c :: _ => in_charset Numeric c = false
       end.
Proof.
  induction line as [| c line IH]; cbn [re_search].
  - intros H. vm_compute in H. discriminate.
  - destruct (match_here time_re (c :: line)) as [m0 |] eqn:E.
    + intros H. inversion H; subst m0.
      apply time_match_here in E. destruct E as (t & post & Hs & -> & Ht & Hp).
      exists [], post. simpl. auto.
    + intros H. destruct (IH H) as (pre & post & -> & Ht & Hp).
      exists (c :: pre), post. auto.
Qed.

Lemma time_capture_maximal_witness :
  exists pre post,
    str "t=3 Time: 10.5. done" = pre ++ str "Time: " ++ str "10.5." ++ post
    /\ match post with
       | [] => True
       | c :: _ => in_charset Numeric c = false
       end.
Proof.
  destruct (time_capture_maximal (str "t=3 Time: 10.5. done")
              [(1, str "10.5.")] eq_refl)
    as (pre & post & Hline & _ & Hpost).
  exists pre, post. split; [exact Hline | exact Hpost].
Defined.

(** ** When the passes succeed *)

Lemma energy_line_succeeds (st : list float * node_series) (line : text) :
  energy_line_converts line = true -> exists st', energy_line st line = Ok st'.
Proof.
  intros Hok. destruct st as [times ne].
  unfold energy_line_converts in Hok. apply andb_true_iff in Hok.
  destruct Hok as [Hok Hid].
  unfold energy_line_ok, field_is_literal in Hok.
  apply andb_true_iff in Hok. destruct Hok as [He Ht].
  assert (Htime : exists times',
             match re_search time_re line with
             | Some m' => rbind (py_float (group_text 1 m'))
                            (fun t => Ok (times ++ [t]))
             | None => Ok times
             end = Ok times').
  { destruct (re_search time_re line) as [m' |] eqn:Em'; [| eauto].
    destruct (time_match_shape _ _ Em') as (pre' & t & post' & _ & Hgt & Htf).
    rewrite Hgt in *. destruct (numeric_field_float _ Htf Ht) as [ft Hft].
    rewrite Hft. simpl. eauto. }
  destruct Htime as [times' Htime]. unfold node_id_ok in Hid.
  unfold energy_line.
  destruct (re_search energy_re line) as [m |] eqn:Em.
  - destruct (energy_match_shape _ _ Em)
      as (pre & d & mid & lab & e & post & _ & _ & Hd & Hg & Hdf & Hnf).
    rewrite Hd, Hg in *. destruct (numeric_field_float _ Hnf He) as [fe Hfe].
    rewrite (py_int_digits _ Hdf Hid), Hfe. cbn [rbind]. rewrite Htime.
    cbn [rbind]. eauto.
  - cbn [rbind]. rewrite Htime. cbn [rbind]. eauto.
Qed.

Lemma energy_line_fails (st : list float * node_series) (line : text) :
  energy_line_converts line = false -> energy_line st line = Raise ValueError.
Proof.
  intros Hbad. unfold energy_line_converts in Hbad.
  apply andb_false_iff in Hbad. destruct Hbad as [Hbad | Hbad].
  - now apply energy_line_raises.
  - destruct st as [times ne]. unfold node_id_ok in Hbad. unfold energy_line.
    destruct (re_search energy_re line) as [m |]; [| discriminate].
    now rewrite (py_int_too_long _ Hbad).
Qed.

Lemma for_energy_lines_outcome (lines : list text) :
  forall st,
    if forallb energy_line_converts lines
    then exists st', for_lines energy_line st lines = Ok st'
    else for_lines energy_line st lines = Raise ValueError.
Proof.
  induction lines as [| line lines IH]; intros st; cbn [forallb for_lines].
  - eauto.
  - destruct (energy_line_converts line) eqn:Hok; cbn [andb].
    + destruct (energy_line_succeeds st line Hok) as [st1 H1]. rewrite H1.
      cbn [rbind]. apply IH.
    + now rewrite (energy_line_fails st line Hok).
Qed.

Lemma for_energy_lines_raises (lines : list text)
    (st : list float * node_series) :
  forallb energy_line_ok lines = false ->
  for_lines energy_line st lines = Raise ValueError.
Proof.
  intros Hbad. pose proof (for_energy_lines_outcome lines st) as H.
  destruct (forallb energy_line_converts lines) eqn:Hall; [| exact H].
  exfalso. rewrite forallb_forall in Hall.
  assert (Hok : forallb energy_line_ok lines = true).
  { apply forallb_forall. intros line Hin. specialize (Hall line Hin).
    unfold energy_line_converts in Hall. now apply andb_true_iff in Hall. }
  congruence.
Qed.

(** The energy pass returns exactly when, on every line, the numerals
    that its two patterns capture are float literals and the captured
    node identifier has at most [int_max_str_digits] digits; otherwise
    it raises [ValueError], and nothing else can make it raise. *)
Theorem energy_pass_outcome (lines : list text) :
  (forallb energy_line_converts lines = true ->
   exists times ne, parse_energy_lines lines = Ok (times, ne))
  /\ (forallb energy_line_converts lines = false ->
      parse_energy_lines lines = Raise ValueError).
Proof.
  pose proof (for_energy_lines_outcome lines ([], [])) as H.
  unfold parse_energy_lines. split; intros Hall; rewrite Hall in H.
  - destruct H as [[times ne] H]. eauto.
  - exact H.
Qed.

Lemma energy_pass_outcome_witness :
  (exists times ne,
      parse_energy_lines [str "boot"; str "Node 3: Remaining=7J Time: 4"]
      = Ok (times, ne))
  /\ parse_energy_lines [str "Node 3: Energy=7J"; str "Node 3: Energy=7..J"]
     = Raise ValueError
  /\ parse_energy_lines
       [str "Node " ++ repeat "1"%char 4301 ++ str ": Energy=1J"]
     = Raise ValueError.
Proof.
  split; [| split].
  - apply (proj1 (energy_pass_outcome
                    [str "boot"; str "Node 3: Remaining=7J Time: 4"])).
    vm_compute. reflexivity.
  - apply (proj2 (energy_pass_outcome
                    [str "Node 3: Energy=7J"; str "Node 3: Energy=7..J"])).
    vm_compute. reflexivity.
  - apply (proj2 (energy_pass_outcome
                    [str "Node " ++ repeat "1"%char 4301
                       ++ str ": Energy=1J"])).
    vm_compute. reflexivity.
Defined.

Lemma pdr_line_fails (st : list float * list float) (line : text) :
  pdr_line_ok line = false -> pdr_line st line = Raise ValueError.
Proof.
  intros Hbad. destruct st as [times pdr_values].
  unfold pdr_line_ok, field_is_literal in Hbad. unfold pdr_line.
  destruct (re_search pdr_re line) as [m |] eqn:Em; [| discriminate].
  destruct (pdr_match_shape _ _ Em)
    as (pre & p & mid & t & post & _ & Hp & Ht & [Hpf _] & [Htf _]).
  rewrite Hp, Ht in *.
  destruct (float_literal p) eqn:Elp.
  - destruct (proj2 (py_float_literal p Hpf) Elp) as [fp Hfp].
    rewrite Hfp. cbn [rbind andb] in *.
    now rewrite (float_not_literal _ Htf Hbad).
  - now rewrite (float_not_literal _ Hpf Elp).
Qed.

Lemma for_pdr_lines_outcome (lines : list text) :
  forall st,
    if forallb pdr_line_ok lines
    then exists st', for_lines pdr_line st lines = Ok st'
    else for_lines pdr_line st lines = Raise ValueError.
Proof.
  induction lines as [| line lines IH]; intros st; cbn [forallb for_lines].
  - eauto.
  - destruct (pdr_line_ok line) eqn:Hok; cbn [andb].
    + destruct (pdr_line st line) as [st1 | e] eqn:H1.
      * cbn [rbind]. apply IH.
      * apply pdr_line_raise in H1. destruct H1 as [_ H1]. congruence.
    + now rewrite (pdr_line_fails st line Hok).
Qed.

(** The PDR pass returns exactly when, on every line that matches its
    pattern, both captured numerals are float literals; otherwise it
    raises [ValueError]. *)
Theorem pdr_pass_outcome (lines : list text) :
  (forallb pdr_line_ok lines = true ->
   exists times pdr_values, parse_pdr_lines lines = Ok (times, pdr_values))
  /\ (forallb pdr_line_ok lines = false ->
      parse_pdr_lines lines = Raise ValueError).
Proof.
  pose proof (for_pdr_lines_outcome lines ([], [])) as H.
  unfold parse_pdr_lines. split; intros Hall; rewrite Hall in H.
  - destruct H as [[times pdr_values] H]. eauto.
  - exact H.
Qed.

Lemma pdr_pass_outcome_witness :
  (exists times pdr_values,
      parse_pdr_lines [str "PDR: .5 until time 3."] = Ok (times, pdr_values))
  /\ parse_pdr_lines [str "PDR: 0.9. at time 3"] = Raise ValueError.
Proof.
  split.
  - apply (proj1 (pdr_pass_outcome [str "PDR: .5 until time 3."])).
    vm_compute. reflexivity.
  - apply (proj2 (pdr_pass_outcome [str "PDR: 0.9. at time 3"])).
    vm_compute. reflexivity.
Defined.

(** ** Invariants of the extracted mapping *)

Lemma dd_append_nonempty (d : node_series) (k : N) (x : float) :
  Forall (fun entry => snd entry <> []) d ->
  Forall (fun entry => snd entry <> []) (dd_append d k x).
Proof.
  induction d as [| [k' v] d IH]; simpl; intros H.
  - repeat constructor. discriminate.
  - inversion H as [| ? ? Hv Hd]; subst.
    destruct (N.eqb k k'); constructor; auto.
    simpl. destruct v; discriminate.
Qed.

Lemma dd_append_total (d : node_series) (k : N) (x : float) :
  total_readings (dd_append d k x) = S (total_readings d).
Proof.
  unfold total_readings. induction d as [| [k' v] d IH]; simpl; [reflexivity |].
  destruct (N.eqb k k'); simpl.
  - rewrite length_app. simpl. lia.
  - rewrite IH. lia.
Qed.

(** What one line does to the state, whenever the loop body returns. *)
Lemma energy_line_cases (times times' : list float) (ne ne' : node_series)
    (line : text) :
  energy_line (times, ne) line = Ok (times', ne') ->
  (if matches_pattern energy_re line
   then exists k x, ne' = dd_append ne k x
   else ne' = ne)
  /\ length times'
     = length times + (if matches_pattern time_re line then 1 else 0).
Proof.
  unfold energy_line, matches_pattern.
  destruct (re_search energy_re line) as [m |]; cbn [rbind].
  - destruct (py_int (group_text 1 m)) as [n | e]; cbn [rbind];
      [| discriminate].
    destruct (py_float (group_text 2 m)) as [x | e]; cbn [rbind];
      [| discriminate].
    destruct (re_search time_re line) as [m' |]; cbn [rbind].
    + destruct (py_float (group_text 1 m')); cbn [rbind]; [| discriminate].
      intros H. inversion H; subst. rewrite length_app. simpl. eauto.
    + intros H. inversion H; subst. split; [eauto | lia].
  - destruct (re_search time_re line) as [m' |]; cbn [rbind].
    + destruct (py_float (group_text 1 m')); cbn [rbind]; [| discriminate].
      intros H. inversion H; subst. rewrite length_app. simpl. auto.
    + intros H. inversion H; subst. split; [reflexivity | lia].
Qed.

Lemma for_energy_lines_invariant (lines : list text) :
  forall times ne times' ne',
    for_lines energy_line (times, ne) lines = Ok (times', ne') ->
    (Forall (fun entry => snd entry <> []) ne ->
     Forall (fun entry => snd entry <> []) ne')
    /\ total_readings ne'
       = total_readings ne
         + length (filter (matches_pattern energy_re) lines)
    /\ length times'
       = length times + length (filter (matches_pattern time_re) lines).
Proof.
  induction lines as [| line lines IH]; intros times ne times' ne' H.
  - simpl in H. inversion H; subst. simpl. repeat split; auto; lia.
  - cbn [for_lines] in H.
    destruct (energy_line (times, ne) line) as [[t1 ne1] | e] eqn:E;
      [| discriminate].
    cbn [rbind] in H. destruct (IH _ _ _ _ H) as (Hne & Htot & Hlen).
    destruct (energy_line_cases _ _ _ _ _ E) as [Hmap Htime].
    cbn [filter].
    destruct (matches_pattern energy_re line);
      destruct (matches_pattern time_re line);
      try destruct Hmap as (k & x & ->); try subst ne1;
      rewrite ?dd_append_total in Htot; cbn [length];
      (split; [intros H0; apply Hne; try apply dd_append_nonempty; exact H0 |]);
      split; lia.
Qed.

(** The mapping that the energy pass returns has no node twice and no
    node without a reading. *)
Theorem extracted_mapping_invariant (lines : list text)
    (times : list float) (ne : node_series) :
  parse_energy_lines lines = Ok (times, ne) ->
  NoDup (keys ne)
  /\ forall node, In node (keys ne) ->
       exists x xs, dict_get ne node = Some (x :: xs).
Proof.
  intros H. pose proof (parse_energy_NoDup _ _ _ H) as Hnd.
  split; [exact Hnd |].
  intros node Hin. apply dict_get_keys in Hin. destruct Hin as [v Hv].
  apply for_energy_lines_invariant in H. destruct H as (Hne & _).
  specialize (Hne (Forall_nil _)). rewrite Forall_forall in Hne.
  assert (Hin : In (node, v) ne).
  { clear -Hv. induction ne as [| [k' v'] d IH]; simpl in *; [discriminate |].
    destruct (N.eqb node k') eqn:E.
    - apply N.eqb_eq in E. inversion Hv; subst. now left.
    - right. now apply IH. }
  specialize (Hne _ Hin). simpl in Hne.
  destruct v as [| x xs]; [congruence | eauto].
Qed.

Lemma extracted_mapping_invariant_witness :
  exists x xs,
    dict_get [(5%N, [2%float]); (1%N, [9%float])] 1%N = Some (x :: xs).
Proof.
  apply (proj2 (extracted_mapping_invariant
                  [str "Node 5: Energy=2J"; str "Node 1: Energy=9J"]
                  [] [(5%N, [2%float]); (1%N, [9%float])]
                  ltac:(vm_compute; reflexivity))).
  simpl. auto.
Defined.

(** Each line gives at most one time and at most one reading, whatever
    it contains: the time sequence has one entry per line that matches
    the time pattern, and the mapping holds one reading per line that
    matches the energy pattern. *)
Theorem one_entry_per_matching_line (lines : list text)
    (times : list float) (ne : node_series) :
  parse_energy_lines lines = Ok (times, ne) ->
  length times = length (filter (matches_pattern time_re) lines)
  /\ total_readings ne = length (filter (matches_pattern energy_re) lines)
  /\ length times <= length lines
  /\ total_readings ne <= length lines.
Proof.
  intros H. apply for_energy_lines_invariant in H.
  destruct H as (_ & Htot & Hlen). simpl in Htot, Hlen.
  rewrite Htot, Hlen. repeat split; apply filter_length_le.
Qed.

Lemma one_entry_per_matching_line_witness :
  length [1%float] = 1 /\ total_readings [(1%N, [6%float])] = 1.
Proof.
  destruct (one_entry_per_matching_line
              [str "Time: 1 Time: 2 Node 1: Energy=5J Node 2: Energy=6J"]
              [1%float] [(1%N, [6%float])]
              ltac:(vm_compute; reflexivity))
    as (Ht & Hr & _).
  split; [exact Ht | exact Hr].
Defined.

(** ** Lines without markers *)

Lemma energy_needs_node (line : text) :
  contains (str "Node ") line = false -> re_search energy_re line = None.
Proof.
  intros H. destruct (re_search energy_re line) as [m |] eqn:E; [| reflexivity].
  apply energy_match_shape in E.
  destruct E as (pre & d & mid & lab & e & post & -> & _).
  rewrite contains_app in H. discriminate.
Qed.

Lemma time_needs_marker (line : text) :
  contains (str "Time: ") line = false -> re_search time_re line = None.
Proof.
  intros H. destruct (re_search time_re line) as [m |] eqn:E; [| reflexivity].
  apply time_match_shape in E. destruct E as (pre & t & post & -> & _).
  rewrite contains_app in H. discriminate.
Qed.

Lemma for_energy_lines_skip (lines : list text) (st : list float * node_series) :
  forallb no_energy_marker lines = true ->
  for_lines energy_line st lines = Ok st.
Proof.
  induction lines as [| line lines IH]; cbn [forallb for_lines];
    [reflexivity |].
  intros H. apply andb_true_iff in H. destruct H as [Hline Hrest].
  unfold no_energy_marker in Hline. apply andb_true_iff in Hline.
  destruct Hline as [Hn Ht]. apply negb_true_iff in Hn, Ht.
  destruct st as [times ne]. unfold energy_line at 1.
  rewrite (energy_needs_node _ Hn), (time_needs_marker _ Ht). cbn [rbind].
  now apply IH.
Qed.

Lemma for_pdr_lines_skip (lines : list text) (st : list float * list float) :
  forallb (fun line => negb (contains (str "PDR: ") line)) lines = true ->
  for_lines pdr_line st lines = Ok st.
Proof.
  induction lines as [| line lines IH]; cbn [forallb for_lines];
    [reflexivity |].
  intros H. apply andb_true_iff in H. destruct H as [Hline Hrest].
  apply negb_true_iff in Hline.
  destruct st as [times pdr_values]. unfold pdr_line at 1.
  rewrite (pdr_needs_both_halves _ (or_introl Hline)). cbn [rbind].
  now apply IH.
Qed.

(** A log in which no line contains [Node ] or [Time: ] gives the energy
    pass nothing: it returns an empty time sequence and an empty mapping,
    without raising, whatever else the lines hold. The PDR pass likewise
    returns two empty sequences on a log without [PDR: ]. *)
Theorem unrelated_lines_are_skipped (lines : list text) :
  (forallb no_energy_marker lines = true ->
   parse_energy_lines lines = Ok ([], []))
  /\ (forallb (fun line => negb (contains (str "PDR: ") line)) lines = true ->
      parse_pdr_lines lines = Ok ([], [])).
Proof.
  split; intros H.
  - now apply for_energy_lines_skip.
  - now apply for_pdr_lines_skip.
Qed.

Lemma unrelated_lines_are_skipped_witness :
  parse_energy_lines [str "node 1 energy=5J"; str "time 3.5"; str "PDR: 1..2"]
  = Ok ([], [])
  /\ parse_pdr_lines [str "Time: 1.0"; str "pdr 0.9 at time 1"] = Ok ([], []).
Proof.
  split.
  - apply (proj1 (unrelated_lines_are_skipped
                    [str "node 1 energy=5J"; str "time 3.5";
                     str "PDR: 1..2"])).
    vm_compute. reflexivity.
  - apply (proj2 (unrelated_lines_are_skipped
                    [str "Time: 1.0"; str "pdr 0.9 at time 1"])).
    vm_compute. reflexivity.
Defined.

(** ** The average never fails *)

Lemma average_energy_nonempty (times : list float) (ne : node_series) :
  ne <> [] ->
  exists avg,
    average_energy times ne = Ok (Some avg)
    /\ length avg = length times
    /\ forallb is_float avg = true.
Proof.
  intros Hne. destruct ne as [| entry ne']; [congruence |].
  set (d := entry :: ne').
  set (g := fun i => PyFloat (quotient (py_sum (readings_at d i))
                                (Z.of_nat (length d)))).
  exists (map g (seq 0 (length times))). split; [| split].
  - unfold average_energy. fold d.
    rewrite mapM_total with (g := g); [reflexivity |].
    intros i _. cbv zeta.
    replace (0 <? length d) with true by reflexivity.
    unfold g. apply py_truediv_nonzero. subst d. simpl. lia.
  - now rewrite length_map, length_seq.
  - rewrite forallb_forall. intros x Hx. apply in_map_iff in Hx.
    destruct Hx as (i & <- & _). reflexivity.
Qed.

(** The average computation cannot raise, whatever the mapping and the
    time sequence are (also when some node appears twice or has too few
    readings): it is skipped for an empty mapping, and otherwise gives
    one float per time index; the [else 0] of its loop is never taken. *)
Theorem average_never_raises (times : list float) (ne : node_series) :
  exists r,
    average_energy times ne = Ok r
    /\ match r with
       | None => ne = []
       | Some avg =>
           ne <> [] /\ length avg = length times
           /\ forallb is_float avg = true
       end.
Proof.
  destruct ne as [| entry ne'].
  - exists None. split; reflexivity.
  - destruct (average_energy_nonempty times (entry :: ne'))
      as (avg & Havg & Hlen & Hfl); [discriminate |].
    exists (Some avg). repeat split; auto. discriminate.
Qed.

(** ** The energy chart *)

Lemma for_each_emit (A : Type) (c : A -> bool) (e : A -> event) (l : list A) :
  for_each (fun a => if c a then emit (e a) else ret tt) l
  = (map e (filter c l), Ok tt).
Proof.
  induction l as [| a l IH]; cbn [for_each filter map]; [reflexivity |].
  rewrite IH. destruct (c a); reflexivity.
Qed.

Lemma firstn_elem (A : Type) (n : nat) (l : list A) (a : A) :
  In a (firstn n l) -> In a l.
Proof.
  intros H. rewrite <- (firstn_skipn n l). apply in_or_app. now left.
Qed.

Lemma sorted_keys_In (ne : node_series) (k : N) :
  In k (sorted_keys ne) <-> In k (keys ne).
Proof. apply sorted_In. Qed.

(** ** The lifetime chart *)

Lemma insert_sorted_perm (x : N) (l : list N) :
  Permutation (x :: l) (insert_sorted x l).
Proof.
  induction l as [| y l IH]; simpl; [reflexivity |].
  destruct (N.leb x y); [reflexivity |].
  rewrite perm_swap. now constructor.
Qed.

Lemma sorted_perm (l : list N) : Permutation l (sorted l).
Proof.
  induction l as [| x l IH]; simpl; [constructor |].
  rewrite <- insert_sorted_perm. now constructor.
Qed.

Lemma insert_sorted_ascending (x : N) (l : list N) :
  Sorted N.le l -> Sorted N.le (insert_sorted x l).
Proof.
  induction l as [| y l IH]; simpl; intros Hs.
  - repeat constructor.
  - destruct (N.leb_spec x y) as [Hxy | Hxy].
    + constructor; [exact Hs | constructor; exact Hxy].
    + inversion Hs as [| ? ? Hl Hhd]; subst.
      constructor; [now apply IH |].
      destruct l as [| z l]; simpl.
      * constructor. lia.
      * inversion Hhd; subst.
        destruct (N.leb x z); constructor; [lia | assumption].
Qed.

Lemma sorted_ascending (l : list N) : Sorted N.le (sorted l).
Proof.
  induction l as [| x l IH]; simpl; [constructor |].
  now apply insert_sorted_ascending.
Qed.

(** The lifetime table lists every node of the mapping once per key, in
    ascending order of identifier whatever the order of the log was, and
    its two lists are parallel: the lifetime at a position is the number
    of readings of the node at that position. *)
Theorem lifetime_table_ascending (ne : node_series) :
  Sorted N.le (snd (lifetime_table ne))
  /\ Permutation (keys ne) (snd (lifetime_table ne))
  /\ fst (lifetime_table ne)
     = map (fun k => length (dict_item ne k)) (snd (lifetime_table ne)).
Proof.
  rewrite lifetime_table_map. cbn [fst snd]. split; [| split].
  - apply sorted_ascending.
  - apply sorted_perm.
  - reflexivity.
Qed.

(** ** What a run saves *)

Lemma saved_files_app (tr1 tr2 : list event) :
  saved_files (tr1 ++ tr2) = saved_files tr1 ++ saved_files tr2.
Proof. apply flat_map_app. Qed.

Lemma saved_files_plots (A : Type) (e : A -> event) (l : list A) :
  (forall a, saved_files [e a] = []) -> saved_files (map e l) = [].
Proof.
  intros H. induction l as [| a l IH]; [reflexivity |].
  change (map e (a :: l)) with ([e a] ++ map e l).
  now rewrite saved_files_app, H, IH.
Qed.

Lemma plot_energy_consumption_run (times : list float) (ne : node_series)
    (output_file : string) :
  exists tr,
    plot_energy_consumption times ne output_file = (tr, Ok tt)
    /\ saved_files tr = [output_file].
Proof.
  unfold plot_energy_consumption. cbv zeta.
  rewrite (for_each_emit _
             (fun k => length (dict_item ne k) =? length times)
             (fun k => PltPlot times (map PyFloat (dict_item ne k))
                         ("Node " ++ decimal k)%string)).
  eexists. split; [reflexivity |].
  rewrite saved_files_app, saved_files_plots by reflexivity. reflexivity.
Qed.

Lemma plot_average_energy_run (times : list float) (ne : node_series)
    (output_file : string) :
  exists tr,
    plot_average_energy times ne output_file = (tr, Ok tt)
    /\ saved_files tr = [output_file].
Proof.
  unfold plot_average_energy. destruct ne as [| entry ne'].
  - eexists. split; reflexivity.
  - destruct (average_energy_nonempty times (entry :: ne'))
      as (avg & Havg & _); [discriminate |].
    rewrite Havg. eexists. split; reflexivity.
Qed.

Lemma plot_network_lifetime_run (ne : node_series) (output_file : string) :
  exists tr,
    plot_network_lifetime ne output_file = (tr, Ok tt)
    /\ saved_files tr = [output_file].
Proof.
  unfold plot_network_lifetime. rewrite lifetime_table_map.
  eexists. split; reflexivity.
Qed.

Lemma plot_packet_delivery_ratio_run (times pdr_values : list float)
    (output_file : string) :
  exists tr,
    plot_packet_delivery_ratio times pdr_values output_file = (tr, Ok tt)
    /\ saved_files tr = [output_file].
Proof.
  unfold plot_packet_delivery_ratio.
  destruct times, pdr_values; eexists; split; reflexivity.
Qed.

Lemma plot_energy_efficiency_comparison_run (output_file : string) :
  exists tr,
    plot_energy_efficiency_comparison output_file = (tr, Ok tt)
    /\ saved_files tr = [output_file].
Proof.
  eexists. split; reflexivity.
Qed.

Lemma bind_ok (A B : Type) (tr : list event) (a : A) (f : A -> io B) :
  bind (tr, Ok a) f = (tr ++ fst (f a), snd (f a)).
Proof.
  unfold bind. now destruct (f a).
Qed.

Lemma bind_raise (A B : Type) (tr : list event) (e : exn) (f : A -> io B) :
  bind (tr, @Raise A e) f = (tr, Raise e).
Proof. reflexivity. Qed.

(** The charts of the energy data, as [main] draws them. *)
Lemma energy_charts_run (times : list float) (ne : node_series) :
  exists tr,
    bind (plot_energy_consumption times ne "energy_consumption.png")
      (fun _ =>
         bind (plot_average_energy times ne "average_energy.png")
           (fun _ => plot_network_lifetime ne "network_lifetime.png"))
    = (tr, Ok tt)
    /\ saved_files tr
       = ["energy_consumption.png"; "average_energy.png";
          "network_lifetime.png"]%string.
Proof.
  destruct (plot_energy_consumption_run times ne "energy_consumption.png")
    as (tr1 & -> & H1).
  destruct (plot_average_energy_run times ne "average_energy.png")
    as (tr2 & -> & H2).
  destruct (plot_network_lifetime_run ne "network_lifetime.png")
    as (tr3 & -> & H3).
  rewrite !bind_ok. cbn [fst snd]. eexists. split; [reflexivity |].
  now rewrite !saved_files_app, H1, H2, H3.
Qed.

Lemma parse_energy_log_file (fs : filesystem) (file : string) (content : text) :
  fs file = Some (RegularFile true content) ->
  parse_energy_log fs file
  = match parse_energy_lines (split_lines (universal_newlines content)) with
    | Ok (times, ne) => ([], Ok (Some times, Some ne))
    | Raise e => ([], Raise e)
    end.
Proof.
  intros H. unfold parse_energy_log, os_path_exists, open_read. rewrite H.
  cbn [negb]. unfold lift, ret, bind.
  destruct (parse_energy_lines _) as [[times ne] | e]; reflexivity.
Qed.

Lemma parse_pdr_log_file (fs : filesystem) (file : string) (content : text) :
  fs file = Some (RegularFile true content) ->
  parse_pdr_log fs file
  = ([], parse_pdr_lines (split_lines (universal_newlines content))).
Proof.
  intros H. unfold parse_pdr_log, open_read. rewrite H.
  unfold lift, bind.
  destruct (parse_pdr_lines _) as [[times pv] | e]; reflexivity.
Qed.

Ltac run_io :=
  unfold emit, ret;
  repeat (rewrite bind_ok; cbv beta iota; cbn [fst snd]).

Ltac saved_norm :=
  unfold saved_files in *;
  repeat (cbn [flat_map app] || rewrite flat_map_app).

(** When the log is readable and both passes return, [main] returns
    normally and saves: the three energy charts exactly when there is at
    least one time marker and at least one reading; the PDR chart exactly
    when there is at least one PDR row; and the comparison chart always,
    in this order. *)
Theorem main_saved_charts (fs : filesystem) (argv : list string)
    (content : text) (times tp pv : list float) (ne : node_series) :
  fs (log_file_of argv) = Some (RegularFile true content) ->
  parse_energy_lines (split_lines (universal_newlines content))
  = Ok (times, ne) ->
  parse_pdr_lines (split_lines (universal_newlines content)) = Ok (tp, pv) ->
  snd (main fs argv) = Ok tt
  /\ saved_files (fst (main fs argv))
     = (match times, ne with
        | _ :: _, _ :: _ =>
            ["energy_consumption.png"; "average_energy.png";
             "network_lifetime.png"]%string
        | _, _ => []
        end)
       ++ (match tp with
           | _ :: _ => ["pdr_graph.png"%string]
           | [] => []
           end)
       ++ ["energy_efficiency.png"%string].
Proof.
  intros Hfs He Hp.
  assert (Hlen : length tp = length pv).
  { unfold parse_pdr_lines in Hp. now apply for_pdr_lines_rows in Hp. }
  unfold main. cbv zeta.
  rewrite (parse_energy_log_file _ _ _ Hfs), He.
  rewrite (parse_pdr_log_file _ _ _ Hfs), Hp.
  destruct (plot_energy_efficiency_comparison_run "energy_efficiency.png")
    as (tr5 & -> & H5).
  destruct (plot_packet_delivery_ratio_run tp pv "pdr_graph.png")
    as (tr4 & H4e & H4).
  destruct (energy_charts_run times ne) as (tr123 & H123e & H123).
  destruct times as [| t0 times'], ne as [| e0 ne'],
    tp as [| p0 tp'], pv as [| v0 pv']; try discriminate Hlen;
    run_io; rewrite ?H4e, ?H123e; run_io; (split; [reflexivity |]);
    saved_norm; rewrite ?H5, ?H4, ?H123; reflexivity.
Qed.

Lemma main_saved_charts_witness :
  saved_files (fst (main scenario_fs ["generate_graphs.py"%string]))
  = ["energy_consumption.png"; "average_energy.png"; "network_lifetime.png";
     "pdr_graph.png"; "energy_efficiency.png"]%string.
Proof.
  exact (proj2 (main_saved_charts
                  scenario_fs ["generate_graphs.py"%string] scenario_text
                  [0%float; 1%float] [1%float] [0.9%float] scenario_energy
                  eq_refl
                  ltac:(vm_compute; reflexivity)
                  ltac:(vm_compute; reflexivity))).
Defined.

(** A numeral that is not a float literal in a line of the energy pass
    ends the run with [ValueError] before any chart is drawn: not even
    the comparison chart, which needs no data, is saved. *)
Theorem main_energy_error_saves_nothing (fs : filesystem)
    (argv : list string) (content : text) :
  fs (log_file_of argv) = Some (RegularFile true content) ->
  forallb energy_line_ok (split_lines (universal_newlines content)) = false ->
  main fs argv = (banner (log_file_of argv), Raise ValueError).
Proof.
  intros Hfs Hbad.
  pose proof (for_energy_lines_raises
                (split_lines (universal_newlines content)) ([], []) Hbad)
    as H.
  fold (parse_energy_lines (split_lines (universal_newlines content))) in H.
  unfold main. cbv zeta. rewrite (parse_energy_log_file _ _ _ Hfs), H.
  reflexivity.
Qed.

Lemma main_energy_error_saves_nothing_witness :
  main malformed_fs ["generate_graphs.py"%string]
  = (banner "simulation.log", Raise ValueError).
Proof.
  exact (main_energy_error_saves_nothing
           malformed_fs ["generate_graphs.py"%string] (str "Time: 1.2.3")
           eq_refl ltac:(vm_compute; reflexivity)).
Defined.

(** A numeral that is not a float literal in a PDR line ends the run
    with [ValueError] only after the energy charts have been saved: the
    run leaves those files behind and draws neither the PDR chart nor
    the comparison chart. *)
Theorem main_pdr_error_after_energy_charts (fs : filesystem)
    (argv : list string) (content : text) (times : list float)
    (ne : node_series) :
  fs (log_file_of argv) = Some (RegularFile true content) ->
  parse_energy_lines (split_lines (universal_newlines content))
  = Ok (times, ne) ->
  forallb pdr_line_ok (split_lines (universal_newlines content)) = false ->
  snd (main fs argv) = Raise ValueError
  /\ saved_files (fst (main fs argv))
     = match times, ne with
       | _ :: _, _ :: _ =>
           ["energy_consumption.png"; "average_energy.png";
            "network_lifetime.png"]%string
       | _, _ => []
       end.
Proof.
  intros Hfs He Hbad.
  pose proof (for_pdr_lines_outcome
                (split_lines (universal_newlines content)) ([], [])) as Hp.
  rewrite Hbad in Hp.
  fold (parse_pdr_lines (split_lines (universal_newlines content))) in Hp.
  unfold main. cbv zeta.
  rewrite (parse_energy_log_file _ _ _ Hfs), He.
  rewrite (parse_pdr_log_file _ _ _ Hfs), Hp.
  destruct (energy_charts_run times ne) as (tr123 & H123e & H123).
  destruct times as [| t0 times'], ne as [| e0 ne'];
    run_io; rewrite ?H123e; run_io; rewrite bind_raise; cbn [fst snd];
    (split; [reflexivity |]);
    saved_norm; rewrite ?H123; reflexivity.
Qed.

Lemma main_pdr_error_after_energy_charts_witness :
  snd (main (fun _ => Some (RegularFile true
                              (str "Time: 1 Node 2: Energy=3J PDR: 0.9. time 1")))
            [])
  = Raise ValueError
  /\ saved_files
       (fst (main (fun _ => Some (RegularFile true
                              (str "Time: 1 Node 2: Energy=3J PDR: 0.9. time 1")))
                  []))
     = ["energy_consumption.png"; "average_energy.png";
        "network_lifetime.png"]%string.
Proof.
  exact (main_pdr_error_after_energy_charts
           (fun _ => Some (RegularFile true
                             (str "Time: 1 Node 2: Energy=3J PDR: 0.9. time 1")))
           [] (str "Time: 1 Node 2: Energy=3J PDR: 0.9. time 1")
           [1%float] [(2%N, [3%float])]
           eq_refl
           ltac:(vm_compute; reflexivity)
           ltac:(vm_compute; reflexivity)).
Defined.

(** A path that exists but cannot be opened for reading (a directory, a
    file without read permission) passes the existence check of the
    energy pass, so [open] raises and the run ends with that error
    instead of the clean exit of a missing file; nothing is drawn. *)
Theorem main_unreadable_path (fs : filesystem) (argv : list string) :
  (fs (log_file_of argv) = Some Directory ->
   main fs argv = (banner (log_file_of argv), Raise IsADirectoryError))
  /\ (forall content,
        fs (log_file_of argv) = Some (RegularFile false content) ->
        main fs argv = (banner (log_file_of argv), Raise PermissionError)).
Proof.
  split; [intros H | intros content H];
    unfold main, parse_energy_log, os_path_exists, open_read;
    rewrite H; reflexivity.
Qed.

Lemma main_unreadable_path_witness :
  main (fun _ => Some Directory) ["generate_graphs.py"; "results"]%string
  = (banner "results", Raise IsADirectoryError).
Proof.
  exact (proj1 (main_unreadable_path
                  (fun _ => Some Directory)
                  ["generate_graphs.py"; "results"]%string) eq_refl).
Defined.

(** ** The charts sorted by node do not depend on the order of the log *)

Lemma ascending_unique (l1 : list N) :
  forall l2,
    StronglySorted N.le l1 -> StronglySorted N.le l2 ->
    Permutation l1 l2 -> l1 = l2.
Proof.
  induction l1 as [| a l1 IH]; intros l2 H1 H2 Hp.
  - apply Permutation_nil in Hp. now subst.
  - destruct l2 as [| b l2].
    + apply Permutation_sym, Permutation_nil in Hp. discriminate.
    + inversion H1 as [| ? ? Hs1 Ha]; subst.
      inversion H2 as [| ? ? Hs2 Hb]; subst.
      rewrite Forall_forall in Ha, Hb.
      assert (Hab : a = b).
      { assert (Hin_a : In a (b :: l2))
          by (eapply Permutation_in; [exact Hp | now left]).
        assert (Hin_b : In b (a :: l1))
          by (eapply Permutation_in;
              [apply Permutation_sym; exact Hp | now left]).
        destruct Hin_a as [-> | Hin_a]; [reflexivity |].
        destruct Hin_b as [-> | Hin_b]; [reflexivity |].
        specialize (Ha _ Hin_b). specialize (Hb _ Hin_a). lia. }
      subst b. f_equal. apply IH; auto.
      now apply Permutation_cons_inv in Hp.
Qed.

Lemma sorted_of_permutation (l1 l2 : list N) :
  Permutation l1 l2 -> sorted l1 = sorted l2.
Proof.
  intros Hp. apply ascending_unique.
  - apply Sorted_StronglySorted; [intros x y z; apply N.le_trans |].
    apply sorted_ascending.
  - apply Sorted_StronglySorted; [intros x y z; apply N.le_trans |].
    apply sorted_ascending.
  - rewrite <- (sorted_perm l1), <- (sorted_perm l2). exact Hp.
Qed.

Lemma dict_get_entry (d : node_series) (k : N) (v : list float) :
  dict_get d k = Some v -> In (k, v) d.
Proof.
  induction d as [| [k' v'] d IH]; simpl; [discriminate |].
  destruct (N.eqb k k') eqn:E.
  - apply N.eqb_eq in E. intros H. inversion H; subst. now left.
  - intros H. right. now apply IH.
Qed.

Lemma dict_item_permutation (d1 d2 : node_series) (k : N) :
  NoDup (keys d1) -> Permutation d1 d2 -> dict_item d1 k = dict_item d2 k.
Proof.
  intros Hnd Hp.
  assert (Hkeys : Permutation (keys d1) (keys d2))
    by (unfold keys; now apply Permutation_map).
  assert (Hnd2 : NoDup (keys d2))
    by (eapply Permutation_NoDup; eauto).
  unfold dict_item. destruct (dict_get d1 k) as [v |] eqn:E1.
  - apply dict_get_entry in E1.
    assert (E2 : In (k, v) d2) by (eapply Permutation_in; eauto).
    now rewrite (dict_get_In _ _ _ Hnd2 E2).
  - destruct (dict_get d2 k) as [v |] eqn:E2; [| reflexivity].
    assert (Hin : In k (keys d1)).
    { eapply Permutation_in; [apply Permutation_sym; exact Hkeys |].
      apply dict_get_keys. eauto. }
    apply dict_get_keys in Hin. destruct Hin as [v' Hv']. congruence.
Qed.

(** The energy chart and the lifetime chart are the same for two
    mappings that hold the same nodes with the same readings in a
    different order: the order in which the nodes first appear in the
    log does not show in them. *)
Theorem sorted_charts_ignore_log_order (times : list float)
    (ne1 ne2 : node_series) (output_file : string) :
  NoDup (keys ne1) ->
  Permutation ne1 ne2 ->
  plot_energy_consumption times ne1 output_file
  = plot_energy_consumption times ne2 output_file
  /\ plot_network_lifetime ne1 output_file
     = plot_network_lifetime ne2 output_file.
Proof.
  intros Hnd Hp.
  assert (Hsk : sorted_keys ne1 = sorted_keys ne2).
  { unfold sorted_keys. apply sorted_of_permutation.
    unfold keys. now apply Permutation_map. }
  assert (Hitem : forall k, dict_item ne1 k = dict_item ne2 k)
    by (intros k; now apply dict_item_permutation).
  split.
  - unfold plot_energy_consumption. cbv zeta.
    rewrite !(for_each_emit _
                (fun k => length (dict_item _ k) =? length times)
                (fun k => PltPlot times (map PyFloat (dict_item _ k))
                            ("Node " ++ decimal k)%string)).
    rewrite Hsk.
    rewrite (filter_ext (fun k => length (dict_item ne1 k) =? length times)
               (fun k => length (dict_item ne2 k) =? length times))
      by (intros k; now rewrite Hitem).
    rewrite (map_ext (fun k => PltPlot times (map PyFloat (dict_item ne1 k))
                                 ("Node " ++ decimal k)%string)
               (fun k => PltPlot times (map PyFloat (dict_item ne2 k))
                           ("Node " ++ decimal k)%string))
      by (intros k; now rewrite Hitem).
    reflexivity.
  - unfold plot_network_lifetime. rewrite !lifetime_table_map, Hsk.
    rewrite (map_ext (fun k => length (dict_item ne1 k))
               (fun k => length (dict_item ne2 k)))
      by (intros k; now rewrite Hitem).
    reflexivity.
Qed.

Lemma sorted_charts_ignore_log_order_witness :
  plot_network_lifetime [(7%N, [1%float]); (3%N, [2%float; 4%float])] "l.png"
  = plot_network_lifetime [(3%N, [2%float; 4%float]); (7%N, [1%float])] "l.png".
Proof.
  apply (proj2 (sorted_charts_ignore_log_order
                  []
                  [(7%N, [1%float]); (3%N, [2%float; 4%float])]
                  [(3%N, [2%float; 4%float]); (7%N, [1%float])]
                  "l.png"
                  ltac:(repeat constructor; simpl; intuition discriminate)
                  (perm_swap _ _ _))).
Defined.

(** ** Which nodes the charts show *)

Lemma ascending_strict (l : list N) :
  StronglySorted N.le l -> NoDup l -> StronglySorted N.lt l.
Proof.
  induction 1 as [| a l Hs IH Ha]; intros Hnd; constructor.
  - apply IH. now inversion Hnd.
  - inversion Hnd as [| ? ? Hnotin _]; subst.
    rewrite Forall_forall in *. intros x Hx. specialize (Ha x Hx).
    assert (x <> a) by (intros ->; contradiction). lia.
Qed.

Lemma sorted_strict (l : list N) : NoDup l -> StronglySorted N.lt (sorted l).
Proof.
  intros Hnd. apply ascending_strict.
  - apply Sorted_StronglySorted; [intros x y z; apply N.le_trans |].
    apply sorted_ascending.
  - eapply Permutation_NoDup; [apply sorted_perm | exact Hnd].
Qed.

Lemma strict_firstn (n : nat) (l : list N) :
  StronglySorted N.lt l -> StronglySorted N.lt (firstn n l).
Proof.
  intros Hs. revert n. induction Hs as [| a l Hs IH Ha]; intros [| n]; simpl;
    try constructor.
  - apply IH.
  - rewrite Forall_forall in *. intros x Hx. apply Ha.
    eapply firstn_elem. exact Hx.
Qed.


Lemma filter_length_permutation (f : N -> bool) (l l' : list N) :
  Permutation l l' -> length (filter f l) = length (filter f l').
Proof.
  induction 1 as [| x l l' _ IH | x y l | l l' l'' _ IH1 _ IH2]; simpl.
  - reflexivity.
  - destruct (f x); simpl; congruence.
  - destruct (f x), (f y); reflexivity.
  - congruence.
Qed.

(** The first [n] elements of a strictly ascending list are those with
    fewer than [n] smaller elements. *)
Lemma firstn_smallest (n : nat) (l : list N) (k : N) :
  StronglySorted N.lt l ->
  In k (firstn n l)
  <-> In k l /\ length (filter (fun j => N.ltb j k) l) < n.
Proof.
  intros Hs. revert n. induction Hs as [| a l Hs IH Ha]; intros n.
  - destruct n; simpl; tauto.
  - rewrite Forall_forall in Ha. destruct n as [| n].
    + simpl. split; [contradiction | intros [_ H]; lia].
    + cbn [firstn In filter]. rewrite IH.
      assert (Hnone : filter (fun j => N.ltb j a) l = []).
      { clear -Ha. induction l as [| x l IHl]; simpl; [reflexivity |].
        assert (Hx : N.ltb x a = false)
          by (apply N.ltb_ge; specialize (Ha x (or_introl eq_refl)); lia).
        rewrite Hx. apply IHl. intros y Hy. apply Ha. now right. }
      split.
      * intros [<- | [Hin Hlen]].
        -- split; [now left |]. rewrite N.ltb_irrefl, Hnone. simpl. lia.
        -- split; [now right |].
           assert (Hak : N.ltb a k = true) by (apply N.ltb_lt; now apply Ha).
           rewrite Hak. simpl. lia.
      * intros [[<- | Hin] Hlen]; [now left | right].
        split; [exact Hin |].
        assert (Hak : N.ltb a k = true) by (apply N.ltb_lt; now apply Ha).
        rewrite Hak in Hlen. simpl in Hlen. lia.
Qed.

Lemma sorted_keys_firstn (n : nat) (ne : node_series) (k : N) :
  NoDup (keys ne) ->
  In k (firstn n (sorted_keys ne))
  <-> In k (keys ne) /\ smaller_keys ne k < n.
Proof.
  intros Hnd. unfold sorted_keys, smaller_keys.
  rewrite (firstn_smallest n (sorted (keys ne)) k (sorted_strict _ Hnd)).
  rewrite sorted_In.
  now rewrite (filter_length_permutation _ _ _ (sorted_perm (keys ne))).
Qed.



(** The lifetime chart has one bar, in ascending order of identifier,
    for every node that is among the twenty smallest identifiers of the
    mapping (fewer than twenty nodes have a smaller one): min(20, number
    of nodes) bars, and the height of each bar is the number of readings
    of its node. The file is saved. *)
Theorem lifetime_chart_bars (ne : node_series) (output_file : string) :
  NoDup (keys ne) ->
  exists ids,
    plot_network_lifetime ne output_file
    = ([PltBar (map (fun n => PyInt (Z.of_N n)) ids)
               (map (fun n => PyInt (Z.of_nat (length (dict_item ne n)))) ids)
               "";
        PltSavefig output_file;
        Print ("[OK] Graph saved: " ++ output_file)%string], Ok tt)
    /\ StronglySorted N.lt ids
    /\ length ids = Nat.min 20 (length ne)
    /\ forall k, In k ids <-> In k (keys ne) /\ smaller_keys ne k < 20.
Proof.
  intros Hnd. exists (firstn 20 (sorted_keys ne)).
  split; [| split; [| split]].
  - unfold plot_network_lifetime. rewrite lifetime_table_map.
    rewrite firstn_map, map_map. reflexivity.
  - apply strict_firstn, sorted_strict, Hnd.
  - rewrite length_firstn. unfold sorted_keys.
    rewrite <- (Permutation_length (sorted_perm (keys ne))).
    unfold keys. now rewrite length_map.
  - intros k. now apply sorted_keys_firstn.
Qed.

Lemma lifetime_chart_bars_witness :
  exists ids,
    plot_network_lifetime [(8%N, [3%float]); (2%N, [5%float; 4%float])] "l.png"
    = ([PltBar (map (fun n => PyInt (Z.of_N n)) ids)
               (map (fun n =>
                       PyInt (Z.of_nat
                                (length
                                   (dict_item [(8%N, [3%float]);
                                               (2%N, [5%float; 4%float])] n))))
                    ids)
               "";
        PltSavefig "l.png"; Print "[OK] Graph saved: l.png"], Ok tt)
    /\ StronglySorted N.lt ids
    /\ length ids = 2.
Proof.
  destruct (lifetime_chart_bars
              [(8%N, [3%float]); (2%N, [5%float; 4%float])] "l.png"
              ltac:(repeat constructor; simpl; intuition discriminate))
    as (ids & Hrun & Hsorted & Hlen & _).
  exists ids. split; [exact Hrun |]. split; [exact Hsorted | exact Hlen].
Defined.
